(** * maua.diffusion.wrappers.guided

    A shallow embedding of [maua/diffusion/wrappers/guided.py]: the noise
    schedule, the secondary denoiser, model construction and the guided
    sampling loop, together with the properties of the specification that
    concern them.

    Conventions.
    - Tensor elements are real numbers: arithmetic on them is exact, the
      rounding of the torch float types is not part of the model.
    - An image batch is a 4-dimensional (N, C, H, W) tensor: a shape and an
      indexing function.  A timestep batch is a 1-dimensional tensor, a list.
    - Python integers are unbounded; the elements of a [torch.long] tensor
      are 64-bit: arithmetic on them wraps around, and torch refuses to
      build one from an integer that does not fit.
    - The learned convolution weights, the diffusion process of the
      [guided_diffusion] submodule, the guidance strategy and the random
      number generator are collaborators outside the file: their types and
      operations are the fields of two classes, [Types] and [Ops].  What the
      torch layers do to shapes is written out.
    - Definitions come first, module by module; the facts about them follow
      in [DenoiserFacts], [GuidedFacts], [ConstructionFacts],
      [SamplingFacts], [DenoiserMore] and [HelpersFacts]. *)

From Stdlib Require Import Reals Lra ZArith List String Lia.
From stdpp Require Import base option list gmap strings pretty.
Import ListNotations.
Open Scope nat_scope.
Set Warnings "-register-all".

(** ** Tensors *)

Module Torch.

(** The shape of an image batch, [(N, C, H, W)]. *)
Record Shape4 := mkShape { sN : nat; sC : nat; sH : nat; sW : nat }.

Definition Shape4_eqb (a b : Shape4) : bool :=
  (sN a =? sN b) && (sC a =? sC b) && (sH a =? sH b) && (sW a =? sW b).

(** A 4-dimensional tensor: its shape and its element at an index. *)
Record Tensor4 := mkTensor {
  shape : Shape4;
  elt : nat -> nat -> nat -> nat -> R
}.

(** A 1-dimensional tensor of reals ([t], the timestep batch). *)
Definition Tensor1 := list R.

(** [x[b]] for a 1-dimensional tensor, read inside its range. *)
Definition elt1 (x : Tensor1) (b : nat) : R := nth b x 0%R.

(** Broadcasting of one dimension: equal sizes, or one of them is 1. *)
Definition bdim (a b : nat) : option nat :=
  if a =? b then Some a
  else if a =? 1 then Some b
  else if b =? 1 then Some a
  else None.

(** The broadcast of two 4-dimensional shapes; [None] is torch's
    RuntimeError on sizes that do not match. *)
Definition broadcast (a b : Shape4) : option Shape4 :=
  n ← bdim (sN a) (sN b);
  c ← bdim (sC a) (sC b);
  h ← bdim (sH a) (sH b);
  w ← bdim (sW a) (sW b);
  Some (mkShape n c h w).

(** The index read in an operand along a dimension of size [d]. *)
Definition bidx (d i : nat) : nat := if d =? 1 then 0 else i.

Definition bread (x : Tensor4) (b c h w : nat) : R :=
  elt x (bidx (sN (shape x)) b) (bidx (sC (shape x)) c)
        (bidx (sH (shape x)) h) (bidx (sW (shape x)) w).

(** An elementwise binary operator with broadcasting ([x * y], [x - y],
    [x + y] on tensors). *)
Definition binop (f : R -> R -> R) (x y : Tensor4) : option Tensor4 :=
  s ← broadcast (shape x) (shape y);
  Some (mkTensor s (fun b c h w => f (bread x b c h w) (bread y b c h w))).

Definition tmul := binop Rmult.
Definition tsub := binop Rminus.
Definition tadd := binop Rplus.

(** [torch.cat([x, y], dim=1)]: the other three sizes must agree. *)
Definition cat1 (x y : Tensor4) : option Tensor4 :=
  let sx := shape x in
  let sy := shape y in
  if (sN sx =? sN sy) && (sH sx =? sH sy) && (sW sx =? sW sy) then
    Some (mkTensor (mkShape (sN sx) (sC sx + sC sy) (sH sx) (sW sx))
            (fun b c h w =>
               if c <? sC sx then elt x b c h w else elt y b (c - sC sx) h w))
  else None.

(** An index is inside a shape. *)
Definition in_shape (s : Shape4) (b c h w : nat) : Prop :=
  b < sN s /\ c < sC s /\ h < sH s /\ w < sW s.

End Torch.
Import Torch.

(** ** Noise schedule *)

Module Schedule.

(** [t_to_alpha_sigma(t)]: [torch.cos(t * torch.pi / 2)] and
    [torch.sin(t * torch.pi / 2)], elementwise on the timestep batch. *)
Definition t_to_alpha_sigma (t : Tensor1) : Tensor1 * Tensor1 :=
  (map (fun x => cos (x * PI / 2)) t, map (fun x => sin (x * PI / 2)) t).

(** [append_dims(x, 4)] of a 1-dimensional tensor: [x[..., None, None, None]],
    of shape [(len x, 1, 1, 1)]. *)
Definition append_dims4 (x : Tensor1) : Tensor4 :=
  mkTensor (mkShape (length x) 1 1 1) (fun b _ _ _ => elt1 x b).

End Schedule.

(** ** Secondary denoiser *)

Module Denoiser.
Import Schedule.

(** *** The layers of [SecondaryDiffusionImageNet2.net] and their shapes *)

(** The [torch.nn] modules the network is built from.  [SkipBlock main skip]
    carries its passthrough path; [ConvBlock] is a [Sequential]. *)
Inductive Layer :=
| Conv2d (c_in c_out kernel padding : nat)
| ReLU
| Identity
| AvgPool2d (kernel : nat)
| Upsample (scale_factor : nat)
| Sequential (layers : list Layer)
| SkipBlock (main : list Layer) (skip : Layer).

(** [ConvBlock(c_in, c_out)]. *)
Definition ConvBlock (c_in c_out : nat) : Layer :=
  Sequential [Conv2d c_in c_out 3 1; ReLU].

(** [SkipBlock(main)] with [skip=None]: the passthrough is the identity. *)
Definition SkipBlock_ (main : list Layer) : Layer := SkipBlock main Identity.

(** The shape of [torch.cat([a, b], dim=1)]. *)
Definition cat1_shape (a b : Shape4) : option Shape4 :=
  if (sN a =? sN b) && (sH a =? sH b) && (sW a =? sW b)
  then Some (mkShape (sN a) (sC a + sC b) (sH a) (sW a))
  else None.

(** The output shape of a layer on an (N, C, H, W) input; [None] where torch
    raises: a channel count that is not the convolution's, a kernel larger
    than the (padded) input, an empty pooling or resampling output, a
    concatenation of different sizes. *)
Fixpoint layer_shape (l : Layer) (s : Shape4) : option Shape4 :=
  match l with
  | Conv2d c_in c_out k p =>
      if (sC s =? c_in) && (k <=? sH s + 2 * p) && (k <=? sW s + 2 * p)
      then Some (mkShape (sN s) c_out (sH s + 2 * p - k + 1) (sW s + 2 * p - k + 1))
      else None
  | ReLU => Some s
  | Identity => Some s
  | AvgPool2d k =>
      if (0 <? k) && (k <=? sH s) && (k <=? sW s)
      then Some (mkShape (sN s) (sC s) ((sH s - k) / k + 1) ((sW s - k) / k + 1))
      else None
  | Upsample f =>
      if (0 <? sH s * f) && (0 <? sW s * f)
      then Some (mkShape (sN s) (sC s) (sH s * f) (sW s * f))
      else None
  | Sequential ls =>
      (fix run (ls : list Layer) (s : Shape4) : option Shape4 :=
         match ls with
         | [] => Some s
         | l :: ls' => s' ← layer_shape l s; run ls' s'
         end) ls s
  | SkipBlock main skip =>
      a ← (fix run (ls : list Layer) (s : Shape4) : option Shape4 :=
             match ls with
             | [] => Some s
             | l :: ls' => s' ← layer_shape l s; run ls' s'
             end) main s;
      b ← layer_shape skip s;
      cat1_shape a b
  end.

(** The output shape of a list of layers run in sequence. *)
Fixpoint seq_shape (ls : list Layer) (s : Shape4) : option Shape4 :=
  match ls with
  | [] => Some s
  | l :: ls' => s' ← layer_shape l s; seq_shape ls' s'
  end.

(** How many layers of a network satisfy [p], nested ones included. *)
Fixpoint count_layers (p : Layer -> bool) (l : Layer) : nat :=
  (if p l then 1 else 0) +
  match l with
  | Sequential ls => list_sum (map (count_layers p) ls)
  | SkipBlock main skip => list_sum (map (count_layers p) main) + count_layers p skip
  | _ => 0
  end.

Definition is_down (l : Layer) : bool :=
  match l with AvgPool2d 2 => true | _ => false end.
Definition is_up (l : Layer) : bool :=
  match l with Upsample 2 => true | _ => false end.
Definition is_skip (l : Layer) : bool :=
  match l with SkipBlock _ _ => true | _ => false end.

(** [self.net] of [SecondaryDiffusionImageNet2.__init__]. *)
Definition c : nat := 64.
Definition cs (i : nat) : nat := nth i [c; c * 2; c * 2; c * 4; c * 4; c * 8] 0.
Definition down : Layer := AvgPool2d 2.
Definition up : Layer := Upsample 2.

Definition net_layers : Layer :=
  Sequential [
    ConvBlock (3 + 16) (cs 0);
    ConvBlock (cs 0) (cs 0);
    SkipBlock_ [
      down;
      ConvBlock (cs 0) (cs 1);
      ConvBlock (cs 1) (cs 1);
      SkipBlock_ [
        down;
        ConvBlock (cs 1) (cs 2);
        ConvBlock (cs 2) (cs 2);
        SkipBlock_ [
          down;
          ConvBlock (cs 2) (cs 3);
          ConvBlock (cs 3) (cs 3);
          SkipBlock_ [
            down;
            ConvBlock (cs 3) (cs 4);
            ConvBlock (cs 4) (cs 4);
            SkipBlock_ [
              down;
              ConvBlock (cs 4) (cs 5);
              ConvBlock (cs 5) (cs 5);
              ConvBlock (cs 5) (cs 5);
              ConvBlock (cs 5) (cs 4);
              up
            ];
            ConvBlock (cs 4 * 2) (cs 4);
            ConvBlock (cs 4) (cs 3);
            up
          ];
          ConvBlock (cs 3 * 2) (cs 3);
          ConvBlock (cs 3) (cs 2);
          up
        ];
        ConvBlock (cs 2 * 2) (cs 2);
        ConvBlock (cs 2) (cs 1);
        up
      ];
      ConvBlock (cs 1 * 2) (cs 1);
      ConvBlock (cs 1) (cs 0);
      up
    ];
    ConvBlock (cs 0 * 2) (cs 0);
    Conv2d (cs 0) 3 3 1
  ].

(** *** Timestep embedding *)

(** A 2-dimensional tensor. *)
Record Tensor2 := mkTensor2 {
  rows : nat;
  cols : nat;
  elt2 : nat -> nat -> R
}.

(** [t[:, None]]: a column. *)
Definition unsqueeze1 (t : Tensor1) : Tensor2 :=
  mkTensor2 (length t) 1 (fun b _ => elt1 t b).

(** [x.T]. *)
Definition transpose (x : Tensor2) : Tensor2 :=
  mkTensor2 (cols x) (rows x) (fun i j => elt2 x j i).

(** [k * x] for a scalar [k]. *)
Definition scale2 (k : R) (x : Tensor2) : Tensor2 :=
  mkTensor2 (rows x) (cols x) (fun i j => (k * elt2 x i j)%R).

(** [x @ y]; the inner sizes must agree. *)
Definition matmul (x y : Tensor2) : option Tensor2 :=
  if cols x =? rows y then
    Some (mkTensor2 (rows x) (cols y)
            (fun i j =>
               fold_right Rplus 0%R
                 (map (fun k => (elt2 x i k * elt2 y k j)%R) (seq 0 (cols x)))))
  else None.

(** [torch.cat([x, y], dim=-1)] of 2-dimensional tensors. *)
Definition cat_last (x y : Tensor2) : option Tensor2 :=
  if rows x =? rows y then
    Some (mkTensor2 (rows x) (cols x + cols y)
            (fun i j => if j <? cols x then elt2 x i j else elt2 y i (j - cols x)))
  else None.

Definition map2d (f : R -> R) (x : Tensor2) : Tensor2 :=
  mkTensor2 (rows x) (cols x) (fun i j => f (elt2 x i j)).

(** [FourierFeatures]: [weight] has shape [(out_features // 2, in_features)];
    its values are drawn at construction and replaced by the checkpoint. *)
Record FourierFeatures := mkFourier {
  in_features : nat;
  out_features : nat;
  weight_at : nat -> nat -> R
}.

Definition weight (ff : FourierFeatures) : Tensor2 :=
  mkTensor2 (out_features ff / 2) (in_features ff) (weight_at ff).

(** [FourierFeatures.forward]:
    [f = 2 * torch.pi * input @ self.weight.T], then
    [torch.cat([f.cos(), f.sin()], dim=-1)]. *)
Definition fourier_forward (ff : FourierFeatures) (input : Tensor2) : option Tensor2 :=
  f ← matmul (scale2 (2 * PI) input) (transpose (weight ff));
  cat_last (map2d cos f) (map2d sin f).

(** [expand_to_planes(x, shape)] for a 2-dimensional [x] and a 4-dimensional
    [shape]: [append_dims(x, 4)] makes it [(rows, cols, 1, 1)], and
    [.repeat([1, 1, H, W])] tiles it over the planes. *)
Definition expand_to_planes (x : Tensor2) (s : Shape4) : Tensor4 :=
  mkTensor (mkShape (rows x) (cols x) (sH s) (sW s))
    (fun b ch _ _ => elt2 x b ch).

(** *** The forward pass *)

Record DiffusionOutput := mkOutput {
  v : Tensor4;
  pred : Tensor4;
  eps : Tensor4
}.

(** [SecondaryDiffusionImageNet2]: the weight of its timestep embedding and
    the values its convolution stack computes.  The stack's weights are
    learned, so its values are left open; its output shape is the one the
    layers of [net_layers] give. *)
Record SecondaryDiffusionImageNet2 := mkSecondary {
  embed_weight : nat -> nat -> R;
  net_values : Tensor4 -> nat -> nat -> nat -> nat -> R
}.

(** [self.timestep_embed = FourierFeatures(1, 16)]. *)
Definition timestep_embed (self : SecondaryDiffusionImageNet2) : FourierFeatures :=
  mkFourier 1 16 (embed_weight self).

(** [self.net(x)]. *)
Definition net (self : SecondaryDiffusionImageNet2) (x : Tensor4) : option Tensor4 :=
  s ← layer_shape net_layers (shape x);
  Some (mkTensor s (net_values self x)).

(** [SecondaryDiffusionImageNet2.forward(input, t)]; [None] is an exception
    raised by a tensor operation on sizes that do not fit. *)
Definition forward (self : SecondaryDiffusionImageNet2)
    (input : Tensor4) (t : Tensor1) : option DiffusionOutput :=
  emb ← fourier_forward (timestep_embed self) (unsqueeze1 t);
  let timestep_embed := expand_to_planes emb (shape input) in
  x ← cat1 input timestep_embed;
  v ← net self x;
  let '(alphas, sigmas) := t_to_alpha_sigma t in
  let alphas := append_dims4 alphas in
  let sigmas := append_dims4 sigmas in
  xa ← tmul input alphas;
  vs ← tmul v sigmas;
  pred ← tsub xa vs;
  xs ← tmul input sigmas;
  va ← tmul v alphas;
  eps ← tadd xs va;
  Some (mkOutput v pred eps).

(** Every [SkipBlock] of a network opens with the 2x pooling, closes with
    the 2x resampling and passes its input through unchanged. *)
Fixpoint balanced (l : Layer) : bool :=
  match l with
  | Sequential ls => forallb balanced ls
  | SkipBlock main skip =>
      match main with
      | AvgPool2d 2 :: rest =>
          match last rest with Some (Upsample 2) => true | _ => false end
      | _ => false
      end
      && match skip with Identity => true | _ => false end
      && forallb balanced main
  | _ => true
  end.

(** A model and an image to evaluate the forward pass on. *)
Definition zero_model : SecondaryDiffusionImageNet2 :=
  mkSecondary (fun _ _ => 0%R) (fun _ _ _ _ _ => 0%R).
Definition zeros (s : Shape4) : Tensor4 := mkTensor s (fun _ _ _ _ => 0%R).

(** The inputs of the forward pass on which no tensor operation raises:
    three channels, one timestep per image, and a height and a width that
    are positive multiples of [2^5]. *)
Definition supported (s : Shape4) (timesteps : nat) : Prop :=
  sC s = 3 /\ timesteps = sN s
  /\ exists h w, 1 <= h /\ 1 <= w /\ sH s = 32 * h /\ sW s = 32 * w.

(** [FourierFeatures.__init__(in_features, out_features, std)]: the
    assertion that [out_features] is even, then
    [weight = torch.randn([out_features // 2, in_features]) * std];
    [drawn] is what [torch.randn] returns.  [None] is the AssertionError. *)
Definition FourierFeatures_init (in_features out_features : nat) (std : R)
    (drawn : nat -> nat -> R) : option FourierFeatures :=
  if out_features mod 2 =? 0
  then Some (mkFourier in_features out_features (fun i j => (drawn i j * std)%R))
  else None.

(** The argument of [self.net] in [forward]:
    [torch.cat([input, timestep_embed], dim=1)]. *)
Definition net_input (self : SecondaryDiffusionImageNet2)
    (input : Tensor4) (t : Tensor1) : option Tensor4 :=
  emb ← fourier_forward (timestep_embed self) (unsqueeze1 t);
  cat1 input (expand_to_planes emb (shape input)).

End Denoiser.

(** ** Model construction and the sampling loop *)

Module Guided.

(** *** Python values and exceptions *)

(** The values of the model configuration dictionary. *)
Inductive ConfigVal :=
| CStr (s : string)
| CInt (z : Z)
| CBool (b : bool).

(** Python truthiness, as [if model_config["use_fp16"]:] reads it. *)
Definition truthy (x : ConfigVal) : bool :=
  match x with
  | CStr s => negb (String.eqb s "")
  | CInt z => negb (z =? 0)%Z
  | CBool b => b
  end.

(** The exceptions a run of the file's code can end in: those of the code
    itself, and those of the torch calls it makes on arguments torch
    refuses.  [RangeError] stands for the error torch reports on an integer
    it cannot take: one that does not fit 64 bits, or an empty range of
    labels to draw from. *)
Inductive Exception :=
| UnboundLocalError (name : string)
| AttributeError (name : string)
| KeyError (key : string)
| TypeError (what : string)
| RangeError (what : string).

Inductive Res (A : Type) :=
| Ok (a : A)
| Raise (e : Exception).
Arguments Ok {A} a.
Arguments Raise {A} e.

(** [s.startswith(sub)]. *)
Fixpoint starts_with (sub s : string) : bool :=
  match sub, s with
  | EmptyString, _ => true
  | String _ _, EmptyString => false
  | String a sub', String b s' => Ascii.eqb a b && starts_with sub' s'
  end.

(** [sub in s] on Python strings: [sub] starts at some position of [s]. *)
Fixpoint contains (sub s : string) : bool :=
  starts_with sub s
  || match s with
     | EmptyString => false
     | String _ s' => contains sub s'
     end.

(** [range(start, stop, step)] for a step that is not zero. *)
Definition py_range (start stop step : Z) : list Z :=
  let n := if (0 <? step)%Z
           then ((stop - start + step - 1) / step)%Z
           else ((start - stop - step - 1) / (- step))%Z in
  map (fun k => (start + Z.of_nat k * step)%Z) (seq 0 (Z.to_nat n)).

(** [tqdm(steps)]: the same sequence, with a progress display. *)
Definition tqdm (steps : list Z) : list Z := steps.

(** *** 64-bit integers *)

(** The elements of a [torch.long] tensor are 64-bit signed integers. *)
Definition in_int64 (z : Z) : bool := (- 2 ^ 63 <=? z)%Z && (z <? 2 ^ 63)%Z.

(** Their arithmetic wraps around. *)
Definition wrap64 (z : Z) : Z := ((z + 2 ^ 63) mod 2 ^ 64 - 2 ^ 63)%Z.

(** *** Collaborators *)

(** The types of the collaborators: the process state the externals act on
    (file system, random number generator, the target state of the guidance
    strategy), the payload of a network parameter, what a network is besides
    its parameters, and the objects handed through unchanged. *)
Class Types := {
  World : Type;
  ParamData : Type;
  ModelBody : Type;
  StateDict : Type;
  Diffusion : Type;
  Conditioning : Type;
  GradModules : Type;
  Prompts : Type;
  Device : Type;
  KwVal : Type;
  Aux : Type;
  Scalar : Type
}.

(** A [torch.nn.Parameter]. *)
Record NNParameter `{Types} := mkNNParameter {
  requires_grad : bool;
  data : ParamData
}.
Arguments mkNNParameter {_}.

(** The main denoising network, a [torch.nn.Module]: [named_parameters()]
    in order, the training flag, [num_classes], and the rest. *)
Record Model `{Types} := mkModel {
  named_parameters : list (string * NNParameter);
  training : bool;
  num_classes : option Z;
  body : ModelBody
}.
Arguments mkModel {_}.

(** The dictionary a one-step sampler returns: [out["sample"]] and the
    auxiliary entries. *)
Record Out `{Types} := mkOut {
  out_sample : Tensor4;
  out_aux : Aux
}.
Arguments mkOut {_}.

(** The one-step samplers of the diffusion process. *)
Inductive Method := p_sample | ddim_sample | plms_sample.

(** [functools.partial(self.diffusion.<method>, **keywords)]: a keyword
    that is not bound is [None]; [old_out=None] is [Some None]. *)
Record Partial `{Types} := mkPartial {
  func : Method;
  kw_eta : option Scalar;
  kw_order : option Scalar;
  kw_old_out : option (option Out);
  kw_clip_denoised : option bool
}.
Arguments mkPartial {_}.

(** The network the guidance strategy is built on. *)
Inductive GuidanceModel `{Types} :=
| OnSecondary (m : option Denoiser.SecondaryDiffusionImageNet2)
| OnMain (m : Model).

(** One call of a bound one-step sampler: the partial application, the
    positional and keyword arguments, and the dictionary returned. *)
Record StepCall `{Types} := mkStepCall {
  call_fn : Partial;
  call_model : Model;
  call_x : Tensor4;
  call_t : list Z;
  call_cond_fn : Conditioning;
  call_model_kwargs : gmap string KwVal;
  call_out : Out
}.
Arguments mkStepCall {_}.

(** The calls into the collaborators that a run makes, in order. *)
Inductive Event `{Types} :=
| EvSetTargets (c : Conditioning) (prompts : Prompts)
| EvRandn (s : Shape4) (result : Tensor4)
| EvRandint (high : option Z) (like : KwVal) (result : KwVal)
| EvQSample (img : Tensor4) (t : list Z) (noise : option Tensor4) (result : Tensor4)
| EvStep (call : StepCall).

(** The operations of the collaborators.  They return normally; an
    exception raised inside one of them ends the run and is not modelled.
    The arguments on which torch refuses a call of this file are tested
    before the operation is called ([long_tensor], [long_scalar] and
    [torch_randint] below). *)
Class Ops `{Types} := {
  (* os.path.exists, download, torch.load *)
  path_exists : string -> World -> bool;
  download : string -> string -> World -> World;
  torch_load : string -> World -> StateDict;
  (* guided_diffusion.script_util *)
  model_and_diffusion_defaults : gmap string ConfigVal;
  create_model_and_diffusion : gmap string ConfigVal -> Model * Diffusion;
  (* what load_state_dict, convert_to_fp16 and .to(device) do to the
     payload of the parameter of a given name *)
  load_data : StateDict -> string -> ParamData -> ParamData;
  half_data : string -> ParamData -> ParamData;
  data_to : Device -> ParamData -> ParamData;
  (* SecondaryDiffusionImageNet2().load_state_dict(...) *)
  load_secondary : StateDict -> Denoiser.SecondaryDiffusionImageNet2;
  (* the guidance strategy *)
  make_conditioning : bool -> Diffusion -> GuidanceModel -> GradModules -> Conditioning;
  conditioning_to : Device -> Conditioning -> Conditioning;
  set_targets : Conditioning -> Prompts -> World -> World;
  (* torch.randn, torch.randint *)
  randn : Shape4 -> Device -> World -> Tensor4 * World;
  randint : option Z -> KwVal -> Device -> World -> KwVal * World;
  (* the diffusion process *)
  use_timesteps : Diffusion -> gset Z;
  q_sample : Diffusion -> Tensor4 -> list Z -> option Tensor4 -> World -> Tensor4 * World;
  run_step : Diffusion -> Partial -> Model -> Tensor4 -> list Z -> Conditioning ->
             gmap string KwVal -> World -> Out * World
}.

(** *** Effects: state passing with exceptions *)

(** The state of a run: the collaborators' state and the calls made. *)
Record State `{Types} := mkState {
  world : World;
  trace : list Event
}.
Arguments mkState {_}.

Definition M `{Types} (A : Type) : Type := State -> Res A * State.

Definition ret `{Types} {A} (a : A) : M A := fun st => (Ok a, st).

Definition raise `{Types} {A} (e : Exception) : M A := fun st => (Raise e, st).

Definition bind `{Types} {A B} (m : M A) (k : A -> M B) : M B :=
  fun st =>
    match m st with
    | (Ok a, st') => k a st'
    | (Raise e, st') => (Raise e, st')
    end.

Notation "'do' x <- m ; k" := (bind m (fun x => k))
  (at level 10, x pattern, m at level 100, k at level 200,
   format "'[v' 'do'  x  <-  m ; '/' k ']'").
Notation "m ;; k" := (bind m (fun _ => k))
  (at level 100, k at level 200, right associativity).

Section Program.
Context `{Ops}.

(** A call that changes only the collaborators' state. *)
Definition on_world (f : World -> World) : M unit :=
  fun st => (Ok tt, mkState (f (world st)) (trace st)).

(** A call that reads the collaborators' state. *)
Definition read_world {A} (f : World -> A) : M A :=
  fun st => (Ok (f (world st)), st).

(** A call that returns a value, and the event recorded for it. *)
Definition call {A} (f : World -> A * World) (ev : A -> Event) : M A :=
  fun st =>
    let '(a, w) := f (world st) in
    (Ok a, mkState w (trace st ++ [ev a])).

(** *** get_checkpoint, create_models *)

Definition url_512 : string :=
  "https://the-eye.eu/public/AI/models/512x512_diffusion_unconditional_ImageNet/512x512_diffusion_uncond_finetune_008100.pt".
Definition url_256 : string :=
  "https://openaipublic.blob.core.windows.net/diffusion/jul-2021/256x256_diffusion_uncond.pt".
Definition url_secondary : string :=
  "https://the-eye.eu/public/AI/models/v-diffusion/secondary_model_imagenet_2.pth".

(** [if not os.path.exists(path): download(url, path)]. *)
Definition fetch (url path : string) : M unit :=
  do present <- read_world (path_exists path);
  if negb present then on_world (download url path) else ret tt.

(** [get_checkpoint(checkpoint_name)]: with any other name neither branch
    assigns [checkpoint_path], and the [return] raises. *)
Definition get_checkpoint (checkpoint_name : string)
    : M (string * gmap string ConfigVal) :=
  if String.eqb checkpoint_name "uncondImageNet512" then
    let checkpoint_path := "modelzoo/512x512_diffusion_uncond_finetune_008100.pt" in
    fetch url_512 checkpoint_path;;
    ret (checkpoint_path, {["image_size" := CInt 512]})
  else if String.eqb checkpoint_name "uncondImageNet256" then
    let checkpoint_path := "modelzoo/256x256_diffusion_uncond.pt" in
    fetch url_256 checkpoint_path;;
    ret (checkpoint_path, {["image_size" := CInt 256]})
  else raise (UnboundLocalError "checkpoint_path").

(** [d.update(other)]. *)
Definition dict_update (d other : gmap string ConfigVal) : gmap string ConfigVal :=
  other ∪ d.

(** [d[key]]. *)
Definition dict_get (d : gmap string ConfigVal) (key : string) : M ConfigVal :=
  match d !! key with
  | Some x => ret x
  | None => raise (KeyError key)
  end.

Definition map_params (f : string -> NNParameter -> NNParameter) (m : Model) : Model :=
  mkModel (map (fun np => (fst np, f (fst np) (snd np))) (named_parameters m))
          (training m) (num_classes m) (body m).

Definition map_data (f : string -> ParamData -> ParamData) : Model -> Model :=
  map_params (fun name p => mkNNParameter (requires_grad p) (f name (data p))).

(** [param.requires_grad_(flag)]. *)
Definition param_requires_grad_ (flag : bool) (p : NNParameter) : NNParameter :=
  mkNNParameter flag (data p).

(** [module.requires_grad_(flag)]: every parameter of the module. *)
Definition requires_grad_ (flag : bool) : Model -> Model :=
  map_params (fun _ => param_requires_grad_ flag).

(** [module.eval()]. *)
Definition eval (m : Model) : Model :=
  mkModel (named_parameters m) false (num_classes m) (body m).

(** [module.load_state_dict(sd)], [module.convert_to_fp16()] and
    [module.to(device)] replace the payload of the parameters. *)
Definition load_state_dict (sd : StateDict) : Model -> Model := map_data (load_data sd).
Definition convert_to_fp16 : Model -> Model := map_data half_data.
Definition to (device : Device) : Model -> Model := map_data (fun _ => data_to device).

(** The test of the loop over [named_parameters()]. *)
Definition unfrozen_name (name : string) : bool :=
  contains "qkv" name || contains "norm" name || contains "proj" name.

(** [for name, param in diffusion_model.named_parameters(): ...]. *)
Definition unfreeze : Model -> Model :=
  map_params (fun name param =>
                if unfrozen_name name then param_requires_grad_ true param else param).

Definition config_overrides (timestep_respacing : string) (diffusion_steps : Z)
    : gmap string ConfigVal :=
  list_to_map [
    ("attention_resolutions", CStr "32, 16, 8");
    ("class_cond", CBool false);
    ("diffusion_steps", CInt diffusion_steps);
    ("rescale_timesteps", CBool true);
    ("timestep_respacing", CStr timestep_respacing);
    ("learn_sigma", CBool true);
    ("noise_schedule", CStr "linear");
    ("num_channels", CInt 256);
    ("num_head_channels", CInt 64);
    ("num_res_blocks", CInt 2);
    ("resblock_updown", CBool true);
    ("use_fp16", CBool true);
    ("use_scale_shift_norm", CBool true)
  ].

(** [create_models(checkpoint, timestep_respacing, diffusion_steps,
    use_secondary)]. *)
Definition create_models (checkpoint : string) (timestep_respacing : string)
    (diffusion_steps : Z) (use_secondary : bool)
    : M (Model * Diffusion * option Denoiser.SecondaryDiffusionImageNet2) :=
  do (checkpoint_path, checkpoint_config) <- get_checkpoint checkpoint;
  let model_config := model_and_diffusion_defaults in
  let model_config :=
    dict_update model_config (config_overrides timestep_respacing diffusion_steps) in
  let model_config := dict_update model_config checkpoint_config in
  let '(diffusion_model, diffusion) := create_model_and_diffusion model_config in
  do sd <- read_world (torch_load checkpoint_path);
  let diffusion_model := load_state_dict sd diffusion_model in
  let diffusion_model := eval (requires_grad_ false diffusion_model) in
  let diffusion_model := unfreeze diffusion_model in
  do use_fp16 <- dict_get model_config "use_fp16";
  let diffusion_model :=
    if truthy use_fp16 then convert_to_fp16 diffusion_model else diffusion_model in
  do secondary_model <-
    (if use_secondary then
       let checkpoint_path := "modelzoo/secondary_model_imagenet_2.pth" in
       fetch url_secondary checkpoint_path;;
       do sd <- read_world (torch_load checkpoint_path);
       ret (Some (load_secondary sd))
     else ret None);
  ret (diffusion_model, diffusion, secondary_model).

(** *** GuidedDiffusion *)

(** The closures [__init__] binds to [self.sample_fn]:
    [lambda _: partial(self.diffusion.p_sample, clip_denoised=False)],
    [lambda _: partial(self.diffusion.ddim_sample, eta=ddim_eta, clip_denoised=False)],
    [lambda old_out: partial(self.diffusion.plms_sample, order=plms_order,
                            old_out=old_out, clip_denoised=False)]. *)
Inductive SampleFn :=
| lambda_p
| lambda_ddim (ddim_eta : Scalar)
| lambda_plms (plms_order : Scalar).

(** [sample_fn(out)]. *)
Definition apply_sample_fn (f : SampleFn) (out : option Out) : Partial :=
  match f with
  | lambda_p => mkPartial p_sample None None None (Some false)
  | lambda_ddim ddim_eta => mkPartial ddim_sample (Some ddim_eta) None None (Some false)
  | lambda_plms plms_order =>
      mkPartial plms_sample None (Some plms_order) (Some out) (Some false)
  end.

(** The attributes of a [GuidedDiffusion]; [sample_fn] is [None] while no
    branch of [__init__] has assigned it. *)
Record GuidedDiffusion := mkGuidedDiffusion {
  model : Model;
  diffusion : Diffusion;
  conditioning : Conditioning;
  sample_fn : option SampleFn;
  device : Device
}.

(** [GuidedDiffusion.__init__]. *)
Definition init (grad_modules : GradModules) (sampler : string) (timesteps : Z)
    (model_checkpoint : string) (device : Device) (ddim_eta plms_order : Scalar)
    (fast : bool) : M GuidedDiffusion :=
  do (model, diffusion, secondary_model) <-
    create_models model_checkpoint
      (if String.eqb sampler "ddim" then "ddim" +:+ pretty timesteps else pretty timesteps)
      1000 fast;
  let conditioning :=
    make_conditioning fast diffusion
      (if fast then OnSecondary secondary_model else OnMain model) grad_modules in
  let sample_fn :=
    if String.eqb sampler "p" then Some lambda_p
    else if String.eqb sampler "ddim" then Some (lambda_ddim ddim_eta)
    else if String.eqb sampler "plms" then Some (lambda_plms plms_order)
    else None in
  ret (mkGuidedDiffusion (to device model) diffusion
         (conditioning_to device conditioning) sample_fn device).

(** Reading [self.sample_fn]: an attribute that was never assigned raises
    (the base class [DiffusionWrapper] is taken not to define it). *)
Definition get_sample_fn (self : GuidedDiffusion) : M SampleFn :=
  match sample_fn self with
  | Some f => ret f
  | None => raise (AttributeError "sample_fn")
  end.

(** [torch.tensor(l, dtype=torch.long)] on a list of Python integers: an
    integer outside the int64 range raises. *)
Definition long_tensor (l : list Z) : M (list Z) :=
  if forallb in_int64 l then ret l else raise (RangeError "tensor").

(** A Python integer as the scalar operand of a [torch.long] tensor: it is
    read as a signed or else as an unsigned 64-bit integer and cast to
    int64; an integer of more than 64 bits raises. *)
Definition long_scalar (z : Z) : M Z :=
  if (- 2 ^ 63 <=? z)%Z && (z <? 2 ^ 64)%Z then ret (wrap64 z)
  else raise (RangeError "scalar").

(** [torch.randint(low=0, high=high, size=like.shape, device=device)]:
    [high=None] is a [TypeError]; [high] has to fit int64 and to be above
    [low]. *)
Definition torch_randint (high : option Z) (like : KwVal) (device : Device) : M KwVal :=
  match high with
  | None => raise (TypeError "randint")
  | Some n =>
      if in_int64 n && (0 <? n)%Z
      then call (randint high like device) (EvRandint high like)
      else raise (RangeError "randint")
  end.

(** The body of the loop of [sample], over the remaining timesteps;
    [model_kwargs], [img] and [out] are the loop's variables.  The timestep
    tensor is built before [self.sample_fn] is read. *)
Fixpoint sample_loop (self : GuidedDiffusion) (randomize_class : bool)
    (steps : list Z) (model_kwargs : gmap string KwVal) (img : Tensor4)
    (out : option Out) : M Tensor4 :=
  match steps with
  | [] => ret img
  | i :: steps' =>
      do model_kwargs <-
        match (if randomize_class then model_kwargs !! "y" else None) with
        | Some y =>
            do y' <- torch_randint (num_classes (model self)) y (device self);
            ret (<["y" := y']> model_kwargs)
        | None => ret model_kwargs
        end;
      do t <- long_tensor (repeat i (sN (shape img)));
      do f <- get_sample_fn self;
      let fn := apply_sample_fn f out in
      do out <-
        call (run_step (diffusion self) fn (model self) img t (conditioning self) model_kwargs)
             (fun out => EvStep (mkStepCall fn (model self) img t (conditioning self)
                                   model_kwargs out));
      sample_loop self randomize_class steps' model_kwargs (out_sample out) (Some out)
  end.

(** [GuidedDiffusion.sample].  The timestep of the forward noising,
    [torch.ones([n], dtype=torch.long) * q_sample - 1], is computed on
    int64 tensors. *)
Definition sample (self : GuidedDiffusion) (img : Tensor4) (prompts : Prompts)
    (start_step n_steps : Z) (model_kwargs : gmap string KwVal)
    (randomize_class verbose : bool) (q_sample_arg : option Z)
    (noise : option Tensor4) : M Tensor4 :=
  call (fun w => (tt, set_targets (conditioning self) prompts w))
       (fun _ => EvSetTargets (conditioning self) prompts);;
  let q_sample_arg :=
    match q_sample_arg with None => start_step | Some q => q end in
  do img <-
    (if (0 <? q_sample_arg)%Z then
       do q <- long_scalar q_sample_arg;
       let t := map (fun one => wrap64 (wrap64 (one * q) - 1))
                    (repeat 1%Z (sN (shape img))) in
       call (q_sample (diffusion self) img t noise) (EvQSample img t noise)
     else ret img);
  let steps := py_range (start_step - 1) (start_step - n_steps - 1) (-1) in
  let steps := if verbose then tqdm steps else steps in
  sample_loop self randomize_class steps model_kwargs img None.

(** [GuidedDiffusion.forward]. *)
Definition forward (self : GuidedDiffusion) (shape : Shape4) (prompts : Prompts)
    (model_kwargs : gmap string KwVal) : M Tensor4 :=
  do img <- call (randn shape (device self)) (EvRandn shape);
  let steps := Z.of_nat (size (use_timesteps (diffusion self))) in
  sample self img prompts steps steps model_kwargs false true None None.

(** *** Reading a trace *)

(** The one-step-sampler calls of a trace, in order. *)
Definition step_calls (tr : list Event) : list StepCall :=
  omap (fun e => match e with EvStep c => Some c | _ => None end) tr.

(** The forward-noising calls of a trace, in order. *)
Definition q_sample_calls (tr : list Event)
    : list (Tensor4 * list Z * option Tensor4 * Tensor4) :=
  omap (fun e => match e with
                 | EvQSample img t noise r => Some (img, t, noise, r)
                 | _ => None
                 end) tr.

(** The calls of a run of the loop are chained: each is made through the
    bound closure applied to the previous output, receives the current image
    and the current timestep broadcast over the batch, returns what the
    one-step sampler returns on these arguments, and hands its ["sample"]
    on.  A run that raises leaves a chain shorter than [steps]. *)
Fixpoint chained (self : GuidedDiffusion) (steps : list Z) (img : Tensor4)
    (out : option Out) (calls : list StepCall) {struct calls} : Prop :=
  match calls with
  | [] => True
  | c :: calls' =>
      match steps with
      | [] => False
      | i :: steps' =>
          (exists f, sample_fn self = Some f /\ call_fn c = apply_sample_fn f out)
          /\ call_model c = model self
          /\ call_x c = img
          /\ call_t c = repeat i (sN (shape img))
          /\ call_cond_fn c = conditioning self
          /\ (exists w, call_out c
                        = fst (run_step (diffusion self) (call_fn c) (call_model c) (call_x c)
                                 (call_t c) (call_cond_fn c) (call_model_kwargs c) w))
          /\ chained self steps' (out_sample (call_out c)) (Some (call_out c)) calls'
      end
  end.

(** The output handed to call [k]: the initial one for the first call, the
    output of call [k - 1] after that. *)
Definition prev_out (out : option Out) (calls : list StepCall) (k : nat) : option Out :=
  match k with
  | 0 => out
  | S k' => call_out <$> calls !! k'
  end.

(** The image handed to call [k]: the initial one for the first call, the
    ["sample"] of call [k - 1] after that. *)
Definition prev_img (img : Tensor4) (calls : list StepCall) (k : nat) : Tensor4 :=
  match k with
  | 0 => img
  | S k' => from_option (fun c => out_sample (call_out c)) img (calls !! k')
  end.

(** *** Reading the collaborators' state and the other calls of a trace *)

(** The collaborators' state after [fetch url path]. *)
Definition fetched (url path : string) (w : World) : World :=
  if path_exists path w then w else download url path w.

(** The table of [get_checkpoint]: the URL, the local path and the
    [image_size] of a checkpoint name. *)
Definition known_checkpoint (name url path : string) (image_size : Z) : Prop :=
  (name = "uncondImageNet512" /\ url = url_512
   /\ path = "modelzoo/512x512_diffusion_uncond_finetune_008100.pt"
   /\ image_size = 512%Z)
  \/ (name = "uncondImageNet256" /\ url = url_256
      /\ path = "modelzoo/256x256_diffusion_uncond.pt"
      /\ image_size = 256%Z).

(** The path of the checkpoint of the secondary model. *)
Definition secondary_path : string := "modelzoo/secondary_model_imagenet_2.pth".

(** The calls of [set_targets], [torch.randn] and [torch.randint] of a
    trace, in order. *)
Definition set_targets_calls (tr : list Event) : list (Conditioning * Prompts) :=
  omap (fun e => match e with EvSetTargets c p => Some (c, p) | _ => None end) tr.

Definition randn_calls (tr : list Event) : list (Shape4 * Tensor4) :=
  omap (fun e => match e with EvRandn s r => Some (s, r) | _ => None end) tr.

Definition randint_calls (tr : list Event) : list (option Z * KwVal * KwVal) :=
  omap (fun e => match e with EvRandint hi like r => Some (hi, like, r) | _ => None end) tr.

(** The events the loop of [sample] records: label draws and sampler
    calls. *)
Definition loop_event (e : Event) : Prop :=
  match e with
  | EvRandint _ _ _ | EvStep _ => True
  | _ => False
  end.

(** The label redraw at the head of an iteration of the loop of [sample]:
    the events it records, the keyword arguments it leaves (or the
    exception of [torch.randint]) and the collaborators' state after it. *)
Definition redraw (self : GuidedDiffusion) (randomize_class : bool)
    (model_kwargs : gmap string KwVal) (w : World)
    : list Event * Res (gmap string KwVal) * World :=
  match (if randomize_class then model_kwargs !! "y" else None) with
  | Some y =>
      match num_classes (model self) with
      | None => ([], Raise (TypeError "randint"), w)
      | Some n =>
          if in_int64 n && (0 <? n)%Z then
            let '(y', w') := randint (Some n) y (device self) w in
            ([EvRandint (Some n) y y'], Ok (<["y" := y']> model_kwargs), w')
          else ([], Raise (RangeError "randint"), w)
      end
  | None => ([], Ok model_kwargs, w)
  end.

(** What [sample] does before its loop: the events it records (the
    targets, and the forward noising when the noise level is positive), the
    image that enters the loop (or the exception of a noise level of more
    than 64 bits) and the collaborators' state after it. *)
Definition prologue (self : GuidedDiffusion) (img : Tensor4) (prompts : Prompts)
    (level : Z) (noise : option Tensor4) (w : World)
    : list Event * Res Tensor4 * World :=
  let w0 := set_targets (conditioning self) prompts w in
  let ev0 := EvSetTargets (conditioning self) prompts in
  if (0 <? level)%Z then
    if (level <? 2 ^ 64)%Z then
      let t := repeat (wrap64 (level - 1)) (sN (shape img)) in
      let '(noised, w1) := q_sample (diffusion self) img t noise w0 in
      ([ev0; EvQSample img t noise noised], Ok noised, w1)
    else ([ev0], Raise (RangeError "scalar"), w0)
  else ([ev0], Ok img, w0).

(** *** Runs within the 64-bit range *)

Definition int64 (z : Z) : Prop := (- 2 ^ 63 <= z < 2 ^ 63)%Z.

(** The timesteps of [range(S - 1, S - N - 1, -1)] fit int64, and so does
    their number. *)
Definition steps_in_range (S N : Z) : Prop :=
  (N <= 0)%Z \/ (int64 (S - 1) /\ int64 (S - N) /\ (N < 2 ^ 63)%Z).

(** No label is redrawn, or the network has a number of classes to draw
    from. *)
Definition labels_in_range (self : GuidedDiffusion) (randomize_class : bool)
    (model_kwargs : gmap string KwVal) : Prop :=
  randomize_class = false
  \/ model_kwargs !! "y" = None
  \/ exists n, num_classes (model self) = Some n /\ (0 < n < 2 ^ 63)%Z.

(** A call of [sample] on which no torch call refuses an integer: the
    timesteps are in range, the noise level fits 64 bits, and so do the
    labels. *)
Definition in_range (self : GuidedDiffusion) (randomize_class : bool)
    (model_kwargs : gmap string KwVal) (S N level : Z) : Prop :=
  steps_in_range S N /\ (level < 2 ^ 64)%Z /\ labels_in_range self randomize_class model_kwargs.

End Program.

(** *** An instance of the collaborators, to evaluate the code on *)

Definition toy_types : Types :=
  {| World := nat; ParamData := string; ModelBody := unit; StateDict := unit;
     Diffusion := gset Z; Conditioning := unit; GradModules := unit;
     Prompts := string; Device := string; KwVal := Z; Aux := nat; Scalar := Z |}.
#[local] Existing Instance toy_types.

Definition toy_parameters : list (string * NNParameter) :=
  [ ("input_blocks.0.0.weight", mkNNParameter true "f32");
    ("input_blocks.4.1.norm.weight", mkNNParameter true "f32");
    ("input_blocks.4.1.qkv.weight", mkNNParameter true "f32");
    ("input_blocks.4.1.proj_out.weight", mkNNParameter true "f32");
    ("out.2.bias", mkNNParameter true "f32") ].

Definition toy_model : Model := mkModel toy_parameters true None tt.

(** A schedule of 50 timesteps. *)
Definition toy_diffusion : gset Z := list_to_set (map Z.of_nat (seq 0 50)).

Definition toy_ops : Ops :=
  {| path_exists := fun _ _ => false;
     download := fun _ _ w => Datatypes.S w;
     torch_load := fun _ _ => tt;
     model_and_diffusion_defaults := ∅;
     create_model_and_diffusion := fun _ => (toy_model, toy_diffusion);
     load_data := fun _ _ d => d;
     half_data := fun _ _ => "f16";
     data_to := fun _ d => d;
     load_secondary := fun _ => Denoiser.zero_model;
     make_conditioning := fun _ _ _ _ => tt;
     conditioning_to := fun _ c => c;
     set_targets := fun _ _ w => w;
     randn := fun s _ w => (Denoiser.zeros s, Datatypes.S w);
     randint := fun _ y _ w => (y, Datatypes.S w);
     use_timesteps := fun d => d;
     q_sample := fun _ x _ _ w => (x, Datatypes.S w);
     run_step := fun _ _ _ x t _ _ w => (mkOut x (length t), w) |}.
#[local] Existing Instance toy_ops.

Definition toy_p : SampleFn := @lambda_p toy_types.
Definition toy_ddim : SampleFn := @lambda_ddim toy_types 0%Z.
Definition toy_plms : SampleFn := @lambda_plms toy_types 2%Z.

Definition toy_self (f : option SampleFn) : GuidedDiffusion :=
  @mkGuidedDiffusion toy_types toy_model toy_diffusion tt f "cpu".

Definition toy_state : State := @mkState toy_types 0 [].

Definition toy_image : Tensor4 := Denoiser.zeros (mkShape 1 3 64 64).

(** The calls evaluated below. *)
Definition toy_sample (f : SampleFn) (S N : Z) (q : option Z) : M Tensor4 :=
  @sample toy_types toy_ops (toy_self (Some f)) toy_image "a prompt" S N ∅
    false true q None.
Definition toy_forward (f : SampleFn) : M Tensor4 :=
  @forward toy_types toy_ops (toy_self (Some f)) (mkShape 1 3 64 64) "a prompt" ∅.
Definition toy_init (sampler : string) : M GuidedDiffusion :=
  @init toy_types toy_ops tt sampler 100 "uncondImageNet512" "cpu" 0%Z 2%Z true.


(** The same collaborators with every checkpoint file already on disk. *)
Definition cached_ops : @Ops toy_types :=
  {| path_exists := fun _ _ => true;
     download := fun _ _ w => Datatypes.S w;
     torch_load := fun _ _ => tt;
     model_and_diffusion_defaults := {["use_fp16" := CBool false; "image_size" := CInt 64]};
     create_model_and_diffusion := fun _ => (toy_model, toy_diffusion);
     load_data := fun _ _ d => d;
     half_data := fun _ _ => "f16";
     data_to := fun _ d => d;
     load_secondary := fun _ => Denoiser.zero_model;
     make_conditioning := fun _ _ _ _ => tt;
     conditioning_to := fun _ c => c;
     set_targets := fun _ _ w => w;
     randn := fun s _ w => (Denoiser.zeros s, Datatypes.S w);
     randint := fun _ y _ w => ((y + 1)%Z, Datatypes.S w);
     use_timesteps := fun d => d;
     q_sample := fun _ x _ _ w => (x, Datatypes.S w);
     run_step := fun _ _ _ x t _ _ w => (mkOut x (length t), w) |}.

(** Keyword arguments with a class label, a class-conditional network and
    an object built on it, and an object whose schedule is empty and whose
    sampler is not bound. *)
Definition labelled : gmap string Z := {["y" := 7%Z]}.

Definition toy_class_model : Model := mkModel toy_parameters true (Some 1000%Z) tt.

Definition toy_class_self (f : option SampleFn) : GuidedDiffusion :=
  @mkGuidedDiffusion toy_types toy_class_model toy_diffusion tt f "cpu".

Definition idle_self : GuidedDiffusion :=
  @mkGuidedDiffusion toy_types toy_model ∅ tt None "cpu".

End Guided.

(** ** The tensor helpers, at any rank *)

Module Helpers.

(** A tensor of any rank: its sizes and its element at a multi-index. *)
Record Tensor := mkT {
  dims : list nat;
  at_ : list nat -> R
}.

Definition ndim (x : Tensor) : nat := length (dims x).

(** [append_dims(x, n)]: [x[(Ellipsis, *(None,) * (n - x.ndim))]] appends
    [n - x.ndim] dimensions of size 1; a count that is not positive appends
    none. *)
Definition append_dims (x : Tensor) (n : nat) : Tensor :=
  mkT (dims x ++ repeat 1 (n - ndim x)) (fun idx => at_ x (take (ndim x) idx)).

(** [x.repeat(sizes)]: [sizes] must have at least as many entries as [x]
    has dimensions ([None] is torch's RuntimeError); [x] is read as if it
    had leading dimensions of size 1, and tiled. *)
Definition tensor_repeat (x : Tensor) (sizes : list nat) : option Tensor :=
  if length sizes <? ndim x then None
  else
    let lead := length sizes - ndim x in
    Some (mkT (zip_with Nat.mul sizes (repeat 1 lead ++ dims x))
              (fun idx => at_ x (zip_with Nat.modulo (drop lead idx) (dims x)))).

(** [expand_to_planes(x, shape)]:
    [append_dims(x, len(shape)).repeat([1, 1, *shape[2:]])]. *)
Definition expand_to_planes (x : Tensor) (shape : list nat) : option Tensor :=
  tensor_repeat (append_dims x (length shape)) ([1; 1] ++ drop 2 shape).

(** A 2-dimensional tensor as a tensor of any rank. *)
Definition of_tensor2 (x : Denoiser.Tensor2) : Tensor :=
  mkT [Denoiser.rows x; Denoiser.cols x]
      (fun idx => Denoiser.elt2 x (nth 0 idx 0) (nth 1 idx 0)).

(** A 1-dimensional tensor as a tensor of any rank. *)
Definition of_tensor1 (x : Tensor1) : Tensor :=
  mkT [length x] (fun idx => elt1 x (nth 0 idx 0)).

(** The sizes of a 4-dimensional shape. *)
Definition shape_list (s : Shape4) : list nat := [sN s; sC s; sH s; sW s].

End Helpers.

(** ** Facts about the secondary denoiser *)

Module DenoiserFacts.
Import Schedule Denoiser.

(** *** Shapes through the layers *)

Lemma layer_shape_Sequential ls s :
  layer_shape (Sequential ls) s = seq_shape ls s.
Proof. reflexivity. Qed.

Lemma layer_shape_SkipBlock main s :
  layer_shape (SkipBlock_ main) s = a ← seq_shape main s; cat1_shape a s.
Proof. reflexivity. Qed.

Lemma seq_shape_cons l ls s :
  seq_shape (l :: ls) s = s' ← layer_shape l s; seq_shape ls s'.
Proof. reflexivity. Qed.

Lemma bind_Some_shape (f : Shape4 -> option Shape4) s : Some s ≫= f = f s.
Proof. reflexivity. Qed.

Lemma Conv2d_3_1_shape ci co n ch h w :
  ch = ci -> 1 <= h -> 1 <= w ->
  layer_shape (Conv2d ci co 3 1) (mkShape n ch h w) = Some (mkShape n co h w).
Proof.
  intros -> Hh Hw. cbn [layer_shape sN sC sH sW].
  rewrite Nat.eqb_refl.
  destruct (Nat.leb_spec 3 (h + 2 * 1)); [|lia].
  destruct (Nat.leb_spec 3 (w + 2 * 1)); [|lia].
  cbn [andb]. do 2 f_equal; lia.
Qed.

Lemma ConvBlock_shape ci co n ch h w :
  ch = ci -> 1 <= h -> 1 <= w ->
  layer_shape (ConvBlock ci co) (mkShape n ch h w) = Some (mkShape n co h w).
Proof.
  intros Hc Hh Hw. unfold ConvBlock.
  rewrite layer_shape_Sequential, seq_shape_cons, Conv2d_3_1_shape by assumption.
  reflexivity.
Qed.

Lemma down_shape n ch h w :
  1 <= h -> 1 <= w ->
  layer_shape down (mkShape n ch (2 * h) (2 * w)) = Some (mkShape n ch h w).
Proof.
  intros Hh Hw. unfold down. cbn [layer_shape sN sC sH sW].
  destruct (Nat.leb_spec 2 (2 * h)); [|lia].
  destruct (Nat.leb_spec 2 (2 * w)); [|lia].
  cbn [Nat.ltb Nat.leb andb].
  replace ((2 * h - 2) / 2 + 1) with h.
  2:{ replace (2 * h - 2) with ((h - 1) * 2) by lia. rewrite Nat.div_mul by lia. lia. }
  replace ((2 * w - 2) / 2 + 1) with w.
  2:{ replace (2 * w - 2) with ((w - 1) * 2) by lia. rewrite Nat.div_mul by lia. lia. }
  reflexivity.
Qed.

Lemma up_shape n ch h w :
  1 <= h -> 1 <= w ->
  layer_shape up (mkShape n ch h w) = Some (mkShape n ch (2 * h) (2 * w)).
Proof.
  intros Hh Hw. unfold up. cbn [layer_shape sN sC sH sW].
  destruct (Nat.ltb_spec 0 (h * 2)); [|lia].
  destruct (Nat.ltb_spec 0 (w * 2)); [|lia].
  cbn [andb]. do 2 f_equal; lia.
Qed.

Lemma cat1_shape_same n c1 c2 h w :
  cat1_shape (mkShape n c1 h w) (mkShape n c2 h w) = Some (mkShape n (c1 + c2) h w).
Proof. unfold cat1_shape. cbn [sN sC sH sW]. by rewrite !Nat.eqb_refl. Qed.

Ltac shape_step :=
  first
    [ rewrite layer_shape_Sequential
    | rewrite layer_shape_SkipBlock
    | rewrite seq_shape_cons
    | rewrite ConvBlock_shape by (first [reflexivity | lia])
    | rewrite Conv2d_3_1_shape by (first [reflexivity | lia])
    | rewrite down_shape by lia
    | rewrite up_shape by lia
    | rewrite cat1_shape_same
    | rewrite bind_Some_shape
    | progress cbn [seq_shape] ].

(** The convolution stack keeps the spatial size of an input whose height
    and width are positive multiples of [2^5], and maps 19 channels to 3. *)
Lemma net_layers_shape n h w :
  1 <= h -> 1 <= w ->
  layer_shape net_layers (mkShape n 19 (32 * h) (32 * w))
  = Some (mkShape n 3 (32 * h) (32 * w)).
Proof.
  intros Hh Hw.
  replace (32 * h) with (2 * (2 * (2 * (2 * (2 * h))))) by lia.
  replace (32 * w) with (2 * (2 * (2 * (2 * (2 * w))))) by lia.
  unfold net_layers.
  repeat shape_step.
  reflexivity.
Qed.

Lemma seq_shape_cons_inv l ls s s' :
  seq_shape (l :: ls) s = Some s' ->
  exists s1, layer_shape l s = Some s1 /\ seq_shape ls s1 = Some s'.
Proof.
  rewrite seq_shape_cons. destruct (layer_shape l s) as [s1|]; [|discriminate].
  intros Hs. exists s1. auto.
Qed.

Lemma Conv2d_3_1_shape_inv ci co s s' :
  layer_shape (Conv2d ci co 3 1) s = Some s' ->
  sC s = ci /\ 1 <= sH s /\ 1 <= sW s /\ s' = mkShape (sN s) co (sH s) (sW s).
Proof.
  cbn [layer_shape].
  destruct (Nat.eqb_spec (sC s) ci); [|discriminate].
  destruct (Nat.leb_spec 3 (sH s + 2 * 1)); [|discriminate].
  destruct (Nat.leb_spec 3 (sW s + 2 * 1)); [|discriminate].
  cbn [andb]. intros [= <-]. repeat split; try lia. f_equal; lia.
Qed.

Lemma ConvBlock_shape_inv ci co s s' :
  layer_shape (ConvBlock ci co) s = Some s' ->
  sC s = ci /\ 1 <= sH s /\ 1 <= sW s /\ s' = mkShape (sN s) co (sH s) (sW s).
Proof.
  unfold ConvBlock. rewrite layer_shape_Sequential. intros Hs.
  apply seq_shape_cons_inv in Hs as (s1 & H1 & H2).
  apply Conv2d_3_1_shape_inv in H1 as (? & ? & ? & ->).
  cbn in H2. injection H2 as <-. auto.
Qed.

Lemma down_shape_inv s s' :
  layer_shape down s = Some s' ->
  2 <= sH s /\ 2 <= sW s /\ s' = mkShape (sN s) (sC s) (sH s / 2) (sW s / 2).
Proof.
  unfold down. cbn [layer_shape].
  destruct (Nat.leb_spec 2 (sH s)); [|discriminate].
  destruct (Nat.leb_spec 2 (sW s)); [|cbn; discriminate].
  change (0 <? 2) with true. cbn [andb]. intros [= <-]. repeat split; try lia.
  f_equal.
  - change ((sH s - 2) / 2 + 1 = sH s / 2).
    rewrite <- (Nat.div_add (sH s - 2) 1 2) by lia. f_equal. lia.
  - change ((sW s - 2) / 2 + 1 = sW s / 2).
    rewrite <- (Nat.div_add (sW s - 2) 1 2) by lia. f_equal. lia.
Qed.

Lemma up_shape_inv s s' :
  layer_shape up s = Some s' ->
  1 <= sH s /\ 1 <= sW s /\ s' = mkShape (sN s) (sC s) (2 * sH s) (2 * sW s).
Proof.
  unfold up. cbn [layer_shape].
  destruct (Nat.ltb_spec 0 (sH s * 2)); [|discriminate].
  destruct (Nat.ltb_spec 0 (sW s * 2)); [|cbn; discriminate].
  cbn [andb]. intros [= <-]. repeat split; try lia. f_equal; lia.
Qed.

Lemma SkipBlock_shape_inv main s s' :
  layer_shape (SkipBlock_ main) s = Some s' ->
  exists a, seq_shape main s = Some a
            /\ sN a = sN s /\ sH a = sH s /\ sW a = sW s
            /\ s' = mkShape (sN s) (sC a + sC s) (sH s) (sW s).
Proof.
  rewrite layer_shape_SkipBlock.
  destruct (seq_shape main s) as [a|]; [|discriminate]. cbn [mbind option_bind].
  unfold cat1_shape.
  destruct (Nat.eqb_spec (sN a) (sN s)); [|discriminate].
  destruct (Nat.eqb_spec (sH a) (sH s)); [|discriminate].
  destruct (Nat.eqb_spec (sW a) (sW s)); [|discriminate].
  cbn [andb]. intros [= <-]. exists a. repeat split; try assumption. f_equal; lia.
Qed.

(** One step backwards through a list of layers that returned. *)
Ltac shape_inv :=
  match goal with
  | H : seq_shape (_ :: _) _ = Some _ |- _ =>
      apply seq_shape_cons_inv in H as (? & ? & ?)
  | H : seq_shape [] _ = Some _ |- _ => cbn [seq_shape] in H; injection H as <-
  | H : layer_shape (ConvBlock _ _) _ = Some _ |- _ =>
      apply ConvBlock_shape_inv in H as (? & ? & ? & ->)
  | H : layer_shape (Conv2d _ _ 3 1) _ = Some _ |- _ =>
      apply Conv2d_3_1_shape_inv in H as (? & ? & ? & ->)
  | H : layer_shape down _ = Some _ |- _ => apply down_shape_inv in H as (? & ? & ->)
  | H : layer_shape up _ = Some _ |- _ => apply up_shape_inv in H as (? & ? & ->)
  | H : layer_shape (SkipBlock_ _) _ = Some _ |- _ =>
      apply SkipBlock_shape_inv in H as (? & ? & ? & ? & ? & ->)
  end.

(** The convolution stack returns only on 19 channels and on a height and
    width that are positive multiples of [2^5], and keeps the spatial size. *)
Lemma net_layers_shape_inv s s' :
  layer_shape net_layers s = Some s' ->
  sC s = 19 /\ s' = mkShape (sN s) 3 (sH s) (sW s)
  /\ exists h w, 1 <= h /\ 1 <= w /\ sH s = 32 * h /\ sW s = 32 * w.
Proof.
  unfold net_layers. intros Hs. rewrite layer_shape_Sequential in Hs.
  repeat (shape_inv; cbn [sN sC sH sW] in *).
  split; [assumption|]. split; [reflexivity|].
  exists (sH s / 2 / 2 / 2 / 2 / 2), (sW s / 2 / 2 / 2 / 2 / 2).
  lia.
Qed.

(** *** The forward pass returns, and what it returns *)

Lemma bdim_refl a : bdim a a = Some a.
Proof. unfold bdim. by rewrite Nat.eqb_refl. Qed.

Lemma bdim_1_r a : bdim a 1 = Some a.
Proof. unfold bdim. destruct (a =? 1) eqn:E; [|reflexivity]. by apply Nat.eqb_eq in E as ->. Qed.

Lemma broadcast_refl s : broadcast s s = Some s.
Proof. destruct s. unfold broadcast. cbn [sN sC sH sW]. by rewrite !bdim_refl. Qed.

Lemma broadcast_planes n ch h w :
  broadcast (mkShape n ch h w) (mkShape n 1 1 1) = Some (mkShape n ch h w).
Proof. unfold broadcast. cbn [sN sC sH sW]. by rewrite bdim_refl, !bdim_1_r. Qed.

Lemma bidx_in d i : i < d -> bidx d i = i.
Proof. unfold bidx. destruct (Nat.eqb_spec d 1); [lia | reflexivity]. Qed.

Lemma bread_in x b ch h w :
  in_shape (shape x) b ch h w -> bread x b ch h w = elt x b ch h w.
Proof. intros (?&?&?&?). unfold bread. by rewrite !bidx_in. Qed.

Lemma bread_append_dims4 t b ch h w :
  b < length t -> bread (append_dims4 t) b ch h w = elt1 t b.
Proof. intros Hb. unfold bread, append_dims4. cbn [shape elt sN]. by rewrite bidx_in. Qed.

Lemma elt1_map (f : R -> R) (t : Tensor1) b :
  b < length t -> elt1 (map f t) b = f (elt1 t b).
Proof.
  intros Hb. unfold elt1.
  rewrite (nth_indep (map f t) 0%R (f 0%R)) by (by rewrite length_map).
  apply map_nth.
Qed.

(** The timestep embedding of a batch of [length t] timesteps has 16
    features per timestep. *)
Lemma fourier_forward_shape self t :
  exists emb, fourier_forward (timestep_embed self) (unsqueeze1 t) = Some emb
              /\ rows emb = length t /\ cols emb = 16.
Proof.
  unfold fourier_forward, matmul.
  cbn [cols rows scale2 unsqueeze1 transpose weight timestep_embed in_features
       Nat.eqb mbind option_bind].
  unfold cat_last. cbn [rows cols map2d]. rewrite Nat.eqb_refl.
  eexists. split; [reflexivity|]. split; reflexivity.
Qed.

Lemma net_returns self x n h w :
  shape x = mkShape n 19 (32 * h) (32 * w) -> 1 <= h -> 1 <= w ->
  net self x = Some (mkTensor (mkShape n 3 (32 * h) (32 * w)) (net_values self x)).
Proof. intros Hs Hh Hw. unfold net. by rewrite Hs, net_layers_shape. Qed.

(** On a batch of [n] three-channel images whose height and width are
    positive multiples of 32, with one timestep per image, the forward pass
    returns, and its three tensors have the shape of the input. *)
Lemma forward_returns self x t n h w :
  shape x = mkShape n 3 (32 * h) (32 * w) -> 1 <= h -> 1 <= w -> length t = n ->
  exists o xcat,
    forward self x t = Some o
    /\ shape (v o) = shape x /\ shape (pred o) = shape x /\ shape (eps o) = shape x
    /\ v o = mkTensor (shape x) (net_values self xcat)
    /\ (forall b ch i j, in_shape (shape x) b ch i j ->
          elt (pred o) b ch i j
          = (elt x b ch i j * cos (elt1 t b * PI / 2)
             - elt (v o) b ch i j * sin (elt1 t b * PI / 2))%R
          /\ elt (eps o) b ch i j
          = (elt x b ch i j * sin (elt1 t b * PI / 2)
             + elt (v o) b ch i j * cos (elt1 t b * PI / 2))%R).
Proof.
  intros Hs Hh Hw Ht.
  destruct (fourier_forward_shape self t) as (emb & Hemb & Hrows & Hcols).
  unfold forward. rewrite Hemb. cbn [mbind option_bind].
  unfold cat1 at 1. cbn [shape expand_to_planes sN sC sH sW].
  rewrite Hs, Hrows, Hcols, Ht. cbn [sN sC sH sW].
  rewrite !Nat.eqb_refl. cbn [andb mbind option_bind Nat.add].
  match goal with |- context [net self ?y] => set (xcat := y) end.
  rewrite (net_returns self xcat n h w) by (subst xcat; cbn [shape]; done || lia).
  cbn [mbind option_bind t_to_alpha_sigma].
  unfold tmul, tsub, tadd, binop.
  cbn [shape append_dims4]. rewrite Hs, !length_map, Ht.
  rewrite !broadcast_planes. cbn [mbind option_bind shape].
  rewrite !broadcast_refl. cbn [mbind option_bind shape].
  eexists _, xcat. split; [reflexivity|].
  cbn [v pred eps shape elt].
  do 4 (split; [reflexivity|]).
  intros b ch i j (Hb & Hch & Hi & Hj). cbn [sN sC sH sW] in Hb, Hch, Hi, Hj.
  unfold bread. cbn [shape elt append_dims4 sN sC sH sW].
  rewrite Hs. cbn [sN sC sH sW].
  rewrite !length_map, Ht.
  rewrite !(bidx_in n b), !(bidx_in 3 ch), !(bidx_in (32 * h) i),
    !(bidx_in (32 * w) j) by lia.
  rewrite !elt1_map by lia.
  split; reflexivity.
Qed.

(** The forward pass returns on supported inputs only. *)
Lemma forward_returns_inv self x t o :
  forward self x t = Some o -> supported (shape x) (length t).
Proof.
  destruct (fourier_forward_shape self t) as (emb & Hemb & Hrows & Hcols).
  unfold forward. rewrite Hemb. cbn [mbind option_bind].
  unfold cat1 at 1. cbn [shape expand_to_planes sN sC sH sW].
  rewrite Hrows, Hcols, !Nat.eqb_refl, !andb_true_r.
  destruct (Nat.eqb_spec (sN (shape x)) (length t)) as [Hn|]; [|discriminate].
  cbn [mbind option_bind]. unfold net at 1. cbn [shape].
  destruct (layer_shape net_layers _) as [s'|] eqn:Hnet; [|discriminate].
  intros _. apply net_layers_shape_inv in Hnet as (Hc & _ & h & w & Hh & Hw & HH & HW).
  cbn [sN sC sH sW] in Hc, HH, HW.
  split; [lia|]. split; [congruence|]. exists h, w. auto.
Qed.

Lemma supported_shape s n :
  supported s n ->
  exists h w, s = mkShape n 3 (32 * h) (32 * w) /\ 1 <= h /\ 1 <= w.
Proof.
  intros (Hc & Hn & h & w & Hh & Hw & HH & HW). exists h, w.
  split; [|auto]. destruct s; cbn in *; congruence.
Qed.

(** C9.  For every timestep of a batch (in particular every timestep in
    [0,1]), [t_to_alpha_sigma] returns alpha = cos(t*pi/2) and
    sigma = sin(t*pi/2), one per timestep, and alpha^2 + sigma^2 = 1. *)
Theorem t_to_alpha_sigma_unit_circle (t : Tensor1) (b : nat) :
  b < length t ->
  let '(alphas, sigmas) := t_to_alpha_sigma t in
  length alphas = length t /\ length sigmas = length t
  /\ elt1 alphas b = cos (elt1 t b * PI / 2)
  /\ elt1 sigmas b = sin (elt1 t b * PI / 2)
  /\ (elt1 alphas b * elt1 alphas b + elt1 sigmas b * elt1 sigmas b = 1)%R.
Proof.
  intros Hb. unfold t_to_alpha_sigma.
  rewrite !length_map, !elt1_map by assumption.
  repeat split.
  pose proof (sin2_cos2 (elt1 t b * PI / 2)) as H. unfold Rsqr in H. lra.
Qed.

Lemma t_to_alpha_sigma_unit_circle_witness :
  let t := [0%R; (1 / 2)%R; 1%R] in
  1 < length t
  /\ (elt1 (fst (t_to_alpha_sigma t)) 1 * elt1 (fst (t_to_alpha_sigma t)) 1
      + elt1 (snd (t_to_alpha_sigma t)) 1 * elt1 (snd (t_to_alpha_sigma t)) 1 = 1)%R.
Proof.
  split; [simpl; lia|].
  apply (t_to_alpha_sigma_unit_circle [0%R; (1 / 2)%R; 1%R] 1). simpl; lia.
Defined.

(** C3.  The forward pass returns a [DiffusionOutput] exactly on the
    supported inputs, and in whatever it returns, at every index,
    pred = x*cos(t*pi/2) - v*sin(t*pi/2) and
    eps = x*sin(t*pi/2) + v*cos(t*pi/2); [v] is recovered from them as
    eps*cos(t*pi/2) - pred*sin(t*pi/2); and two outputs for the same [x] and
    [t] that agree on [v] at an index agree on [pred] and [eps] there. *)
Theorem forward_pred_eps_algebra self x t :
  (supported (shape x) (length t) -> exists o, forward self x t = Some o)
  /\ (forall o, forward self x t = Some o ->
        supported (shape x) (length t)
        /\ forall b ch i j, in_shape (shape x) b ch i j ->
             let alpha := cos (elt1 t b * PI / 2) in
             let sigma := sin (elt1 t b * PI / 2) in
             elt (pred o) b ch i j = (elt x b ch i j * alpha - elt (v o) b ch i j * sigma)%R
             /\ elt (eps o) b ch i j = (elt x b ch i j * sigma + elt (v o) b ch i j * alpha)%R
             /\ elt (v o) b ch i j
                = (elt (eps o) b ch i j * alpha - elt (pred o) b ch i j * sigma)%R
             /\ (forall self' o', forward self' x t = Some o' ->
                   elt (v o') b ch i j = elt (v o) b ch i j ->
                   elt (pred o') b ch i j = elt (pred o) b ch i j
                   /\ elt (eps o') b ch i j = elt (eps o) b ch i j)).
Proof.
  split.
  - intros Hsup. apply supported_shape in Hsup as (h & w & Hs & Hh & Hw).
    destruct (forward_returns self x t (length t) h w Hs Hh Hw eq_refl) as (o & _ & Ho & _).
    eauto.
  - intros o Ho. pose proof (forward_returns_inv self x t o Ho) as Hsup.
    split; [exact Hsup|].
    apply supported_shape in Hsup as (h & w & Hs & Hh & Hw).
    destruct (forward_returns self x t (length t) h w Hs Hh Hw eq_refl)
      as (o1 & xcat & Ho1 & _ & _ & _ & _ & Hrel).
    rewrite Ho in Ho1. injection Ho1 as <-.
    intros b ch i j Hin alpha sigma.
    destruct (Hrel b ch i j Hin) as [Hp He]. fold alpha sigma in Hp, He.
    split; [exact Hp|]. split; [exact He|]. split.
    + pose proof (sin2_cos2 (elt1 t b * PI / 2)) as H1. unfold Rsqr in H1.
      fold alpha sigma in H1. rewrite Hp, He.
      transitivity (elt (v o) b ch i j * (sigma * sigma + alpha * alpha))%R;
        [rewrite H1; ring | ring].
    + intros self' o' Ho' Hv.
      destruct (forward_returns self' x t (length t) h w Hs Hh Hw eq_refl)
        as (o2 & xcat' & Ho2 & _ & _ & _ & _ & Hrel').
      rewrite Ho' in Ho2. injection Ho2 as <-.
      destruct (Hrel' b ch i j Hin) as [Hp' He']. fold alpha sigma in Hp', He'.
      rewrite Hp, He, Hp', He', Hv. split; reflexivity.
Qed.

Lemma forward_pred_eps_algebra_witness :
  exists o, forward zero_model (zeros (mkShape 1 3 32 32)) [1%R] = Some o
            /\ elt (v o) 0 0 0 0
               = (elt (eps o) 0 0 0 0 * cos (1 * PI / 2)
                  - elt (pred o) 0 0 0 0 * sin (1 * PI / 2))%R.
Proof.
  destruct (forward_pred_eps_algebra zero_model (zeros (mkShape 1 3 32 32)) [1%R])
    as [Hret Halg].
  destruct Hret as [o Ho].
  { split; [reflexivity|]. split; [reflexivity|]. exists 1, 1. cbn. lia. }
  exists o. split; [exact Ho|].
  destruct (Halg o Ho) as [_ Hrel].
  apply (Hrel 0 0 0 0). cbv [in_shape zeros shape sN sC sH sW]. lia.
Defined.

Example net_layers_down : count_layers is_down net_layers = 5.
Proof. reflexivity. Qed.

Example net_layers_32 :
  layer_shape net_layers (mkShape 1 19 32 32) = Some (mkShape 1 3 32 32).
Proof. reflexivity. Qed.

Example net_layers_48 : layer_shape net_layers (mkShape 1 19 48 48) = None.
Proof. reflexivity. Qed.

(** C4, as the claim states it, fails: the network pools five times, not
    four, and a 16x16 image (sides divisible by 2^4) makes the forward pass
    raise, at the fifth pooling of a 1x1 plane. *)
Lemma forward_16x16_raises :
  count_layers is_down net_layers <> 4
  /\ Nat.divide (2 ^ 4) 16
  /\ forward zero_model (zeros (mkShape 1 3 16 16)) [0%R] = None.
Proof.
  split; [discriminate|]. split; [exists 1; reflexivity|]. reflexivity.
Qed.

(** C4, amended.  The secondary denoiser is a symmetric encoder-decoder with
    exactly five levels of 2x pooling, each inside a skip block that ends
    with the matching 2x resampling and concatenates its input to its
    output; on every three-channel input whose height and width are positive
    multiples of 2^5, with one timestep per image, the forward pass returns
    and [v], [pred] and [eps] have the shape of the input. *)
Theorem forward_keeps_shape self x t n h w :
  shape x = mkShape n 3 h w -> length t = n ->
  0 < h -> 0 < w -> Nat.divide (2 ^ 5) h -> Nat.divide (2 ^ 5) w ->
  count_layers is_down net_layers = 5
  /\ count_layers is_up net_layers = 5
  /\ count_layers is_skip net_layers = 5
  /\ balanced net_layers = true
  /\ exists o, forward self x t = Some o
               /\ shape (v o) = shape x
               /\ shape (pred o) = shape x
               /\ shape (eps o) = shape x.
Proof.
  intros Hs Ht Hh Hw [h' Hh'] [w' Hw'].
  do 4 (split; [reflexivity|]).
  change (2 ^ 5) with 32 in Hh', Hw'.
  destruct (forward_returns self x t n h' w') as (o & _ & Ho & Hv & Hp & He & _);
    [rewrite Hs; f_equal; lia | lia | lia | exact Ht |].
  exists o. auto.
Qed.

Lemma forward_keeps_shape_witness :
  exists o, forward zero_model (zeros (mkShape 2 3 64 32)) [0%R; 1%R] = Some o
            /\ shape (v o) = mkShape 2 3 64 32
            /\ shape (pred o) = mkShape 2 3 64 32
            /\ shape (eps o) = mkShape 2 3 64 32.
Proof.
  apply (forward_keeps_shape zero_model (zeros (mkShape 2 3 64 32)) [0%R; 1%R] 2 64 32);
    [reflexivity | reflexivity | lia | lia | exists 2; reflexivity | exists 1; reflexivity].
Defined.

End DenoiserFacts.

(** ** Facts about model construction and the sampling loop *)

Module GuidedFacts.
Import Guided.

Section Facts.
Context `{Ops}.

(** *** Strings and ranges *)

Lemma append_nil_l (s : string) : "" +:+ s = s.
Proof. reflexivity. Qed.

Lemma append_cons (a : Ascii.ascii) (s t : string) :
  String a s +:+ t = String a (s +:+ t).
Proof. reflexivity. Qed.

Lemma starts_with_spec sub s :
  starts_with sub s = true <-> exists post, s = sub +:+ post.
Proof.
  revert s. induction sub as [|a sub IH]; intros s.
  - split; [intros _; exists s; reflexivity | reflexivity].
  - destruct s as [|b s]; cbn [starts_with].
    + split; [discriminate | intros [post Hp]; discriminate].
    + rewrite andb_true_iff, Ascii.eqb_eq, IH. split.
      * intros [-> [post ->]]. exists post. reflexivity.
      * intros [post Hp]. rewrite append_cons in Hp. injection Hp as -> ->. eauto.
Qed.

(** [contains] is the substring test. *)
Lemma contains_spec sub s :
  contains sub s = true <-> exists pre post, s = pre +:+ sub +:+ post.
Proof.
  induction s as [|a s IH]; cbn [contains]; rewrite orb_true_iff, starts_with_spec.
  - split.
    + intros [[post Hp]|Hf]; [exists "", post; exact Hp | discriminate].
    + intros (pre & post & Hp). left. destruct pre; [eauto | discriminate].
  - rewrite IH. split.
    + intros [[post Hp]|(pre & post & Hp)].
      * exists "", post. exact Hp.
      * exists (String a pre), post. by rewrite append_cons, Hp.
    + intros (pre & post & Hp). destruct pre as [|b pre].
      * left. eauto.
      * right. rewrite append_cons in Hp. injection Hp as _ Hp. eauto.
Qed.

(** [range(S - 1, S - N - 1, -1)] counts down from [S - 1], [N] values. *)
Lemma py_range_down (S N : Z) :
  py_range (S - 1) (S - N - 1) (-1)
  = map (fun k => (S - 1 - Z.of_nat k)%Z) (seq 0 (Z.to_nat N)).
Proof.
  unfold py_range. change (0 <? -1)%Z with false. cbv iota.
  change (- -1)%Z with 1%Z. rewrite Z.div_1_r.
  replace (S - 1 - (S - N - 1) - -1 - 1)%Z with N by lia.
  apply map_ext. intros k. lia.
Qed.

Lemma py_range_down_length (S N : Z) :
  length (py_range (S - 1) (S - N - 1) (-1)) = Z.to_nat N.
Proof. by rewrite py_range_down, length_map, length_seq. Qed.

Lemma py_range_down_lookup (S N : Z) (k : nat) (i : Z) :
  py_range (S - 1) (S - N - 1) (-1) !! k = Some i -> i = (S - 1 - Z.of_nat k)%Z.
Proof.
  rewrite py_range_down, list_lookup_fmap. intros Hk.
  destruct (seq 0 (Z.to_nat N) !! k) as [j|] eqn:Hj; [|discriminate].
  apply lookup_seq in Hj as [-> _]. cbn in Hk. congruence.
Qed.

(** *** create_models *)

Lemma fetch_returns url path st :
  exists w, fetch url path st = (Ok tt, mkState w (trace st)).
Proof.
  unfold fetch, bind, read_world, on_world, ret.
  destruct (path_exists path (world st)); cbn; [destruct st|]; eauto.
Qed.

Lemma get_checkpoint_known checkpoint st :
  checkpoint = "uncondImageNet512" \/ checkpoint = "uncondImageNet256" ->
  exists path size w,
    get_checkpoint checkpoint st
    = (Ok (path, {["image_size" := CInt size]}), mkState w (trace st)).
Proof.
  intros [-> | ->]; unfold get_checkpoint; cbn [String.eqb Ascii.eqb Bool.eqb];
    unfold bind.
  - destruct (fetch_returns url_512 "modelzoo/512x512_diffusion_uncond_finetune_008100.pt" st)
      as [w ->]. unfold ret. eauto.
  - destruct (fetch_returns url_256 "modelzoo/256x256_diffusion_uncond.pt" st)
      as [w ->]. unfold ret. eauto.
Qed.

(** The configuration handed to [create_model_and_diffusion] has
    [use_fp16] set, whatever the defaults are. *)
Lemma model_config_use_fp16 (defaults : gmap string ConfigVal) respacing steps size :
  dict_update (dict_update defaults (config_overrides respacing steps))
    {["image_size" := CInt size]} !! "use_fp16" = Some (CBool true).
Proof.
  unfold dict_update.
  rewrite lookup_union_r by (by apply lookup_singleton_ne).
  apply lookup_union_Some_l. reflexivity.
Qed.

Lemma map_params_names f m :
  map fst (named_parameters (map_params f m)) = map fst (named_parameters m).
Proof. unfold map_params. cbn. rewrite map_map. reflexivity. Qed.

(** The gradient flags after freezing, unfreezing by name and conversion. *)
Lemma unfreeze_flags sd m0 (convert : bool) name p :
  let m := unfreeze (eval (requires_grad_ false (load_state_dict sd m0))) in
  (name, p) ∈ named_parameters (if convert then convert_to_fp16 m else m) ->
  requires_grad p = unfrozen_name name.
Proof.
  intros m Hin.
  assert (Hm : forall name p, (name, p) ∈ named_parameters m ->
                              requires_grad p = unfrozen_name name).
  { clear. intros name p Hin. subst m.
    unfold unfreeze, eval, requires_grad_, load_state_dict, map_data, map_params in Hin.
    cbn [named_parameters] in Hin. rewrite !map_map in Hin. cbn [fst snd] in Hin.
    apply list_elem_of_fmap in Hin as ([name0 p0] & Heq & _).
    cbn [fst snd] in Heq. injection Heq as -> ->.
    destruct (unfrozen_name name0); reflexivity. }
  destruct convert; [|by apply Hm].
  unfold convert_to_fp16, map_data, map_params in Hin. cbn [named_parameters] in Hin.
  apply list_elem_of_fmap in Hin as ([name0 p0] & Heq & Hin0).
  cbn [fst snd] in Heq. injection Heq as -> ->. cbn [requires_grad].
  by apply Hm.
Qed.

(** For the two known checkpoints [create_models] returns; the gradient
    flags of the network it returns follow the parameter names. *)
Lemma create_models_known checkpoint respacing steps use_secondary st :
  checkpoint = "uncondImageNet512" \/ checkpoint = "uncondImageNet256" ->
  exists m d s st' config,
    create_models checkpoint respacing steps use_secondary st = (Ok (m, d, s), st')
    /\ map fst (named_parameters m)
       = map fst (named_parameters (fst (create_model_and_diffusion config)))
    /\ forall name p, (name, p) ∈ named_parameters m ->
         (requires_grad p = true <->
          (exists pre post, name = pre +:+ "qkv" +:+ post)
          \/ (exists pre post, name = pre +:+ "norm" +:+ post)
          \/ (exists pre post, name = pre +:+ "proj" +:+ post)).
Proof.
  intros Hck.
  destruct (get_checkpoint_known checkpoint st Hck) as (path & size & w & Hget).
  unfold create_models. unfold bind at 1. rewrite Hget.
  rewrite (surjective_pairing (create_model_and_diffusion _)).
  set (config := dict_update (dict_update _ _) _).
  unfold bind at 1, read_world at 1. cbn [world trace].
  unfold bind at 1, dict_get. subst config. rewrite model_config_use_fp16.
  set (config := dict_update (dict_update _ _) _).
  unfold ret at 1. cbn [truthy].
  set (m := convert_to_fp16 _).
  assert (Hnames : map fst (named_parameters m)
                   = map fst (named_parameters (fst (create_model_and_diffusion config)))).
  { subst m. unfold convert_to_fp16, map_data. rewrite map_params_names.
    unfold unfreeze. rewrite map_params_names.
    unfold eval. cbn [named_parameters].
    unfold requires_grad_, load_state_dict, map_data.
    by rewrite 2!map_params_names. }
  assert (Hflags : forall name p, (name, p) ∈ named_parameters m ->
            (requires_grad p = true <->
             (exists pre post, name = pre +:+ "qkv" +:+ post)
             \/ (exists pre post, name = pre +:+ "norm" +:+ post)
             \/ (exists pre post, name = pre +:+ "proj" +:+ post))).
  { intros name p Hin. subst m.
    rewrite (unfreeze_flags _ _ true name p Hin).
    unfold unfrozen_name. rewrite !orb_true_iff, !contains_spec. tauto. }
  destruct use_secondary.
  - unfold bind at 1. unfold bind at 1.
    destruct (fetch_returns url_secondary "modelzoo/secondary_model_imagenet_2.pth"
                (mkState w (trace st))) as [w' ->].
    unfold bind, read_world, ret. cbn [world trace].
    eexists _, _, _, _, config. split; [reflexivity|]. split; assumption.
  - unfold bind, ret.
    eexists _, _, _, _, config. split; [reflexivity|]. split; assumption.
Qed.

(** *** 64-bit integers *)

Lemma in_int64_spec z : in_int64 z = true <-> int64 z.
Proof. unfold in_int64, int64. rewrite andb_true_iff, Z.leb_le, Z.ltb_lt. tauto. Qed.

(** Inside the range nothing wraps. *)
Lemma wrap64_int64 z : int64 z -> wrap64 z = z.
Proof. unfold int64, wrap64. intros Hz. rewrite Z.mod_small by lia. lia. Qed.

Lemma wrap64_decomp z : exists k, wrap64 z = (z + k * 2 ^ 64)%Z.
Proof.
  exists (- ((z + 2 ^ 63) / 2 ^ 64))%Z. unfold wrap64.
  pose proof (Z.div_mod (z + 2 ^ 63) (2 ^ 64) ltac:(lia)). lia.
Qed.

Lemma wrap64_shift z k : wrap64 (z + k * 2 ^ 64) = wrap64 z.
Proof.
  unfold wrap64.
  replace (z + k * 2 ^ 64 + 2 ^ 63)%Z with (z + 2 ^ 63 + k * 2 ^ 64)%Z by lia.
  by rewrite Z_mod_plus_full.
Qed.

(** Above the range a positive integer of 64 bits comes out 2^64 lower. *)
Lemma wrap64_high z : (2 ^ 63 <= z < 2 ^ 64)%Z -> wrap64 z = (z - 2 ^ 64)%Z.
Proof.
  intros Hz. replace z with (z - 2 ^ 64 + 1 * 2 ^ 64)%Z at 1 by lia.
  rewrite wrap64_shift. apply wrap64_int64. unfold int64. lia.
Qed.

(** [torch.ones([n], dtype=torch.long) * q - 1] is [q - 1], wrapped, at
    every position. *)
Lemma noise_timesteps (q : Z) (n : nat) :
  map (fun one => wrap64 (wrap64 (one * wrap64 q) - 1)) (repeat 1%Z n)
  = repeat (wrap64 (q - 1)) n.
Proof.
  induction n as [|n IH]; cbn [repeat map]; [reflexivity|]. rewrite IH. f_equal.
  rewrite Z.mul_1_l.
  destruct (wrap64_decomp q) as [k ->].
  destruct (wrap64_decomp (q + k * 2 ^ 64)) as [k' ->].
  replace (q + k * 2 ^ 64 + k' * 2 ^ 64 - 1)%Z with (q - 1 + (k + k') * 2 ^ 64)%Z by lia.
  apply wrap64_shift.
Qed.

Lemma forallb_in_int64_repeat i n : int64 i -> forallb in_int64 (repeat i n) = true.
Proof.
  intros Hi. apply forallb_forall. intros x Hx. apply repeat_spec in Hx as ->.
  by apply in_int64_spec.
Qed.

(** The timesteps of a run in range fit int64. *)
Lemma py_range_down_int64 (S N : Z) :
  steps_in_range S N -> Forall int64 (py_range (S - 1) (S - N - 1) (-1)).
Proof.
  intros HR. rewrite py_range_down. apply Forall_forall. intros i Hi.
  apply list_elem_of_fmap in Hi as (k & -> & Hk). apply elem_of_seq in Hk.
  destruct HR as [HN | (H1 & H2 & _)]; unfold int64 in *; lia.
Qed.

Lemma py_range_down_nil (S N : Z) :
  (N <= 0)%Z -> py_range (S - 1) (S - N - 1) (-1) = [].
Proof. intros HN. rewrite py_range_down. by replace (Z.to_nat N) with 0 by lia. Qed.

Lemma py_range_down_cons (S N : Z) :
  (1 <= N)%Z -> exists steps, py_range (S - 1) (S - N - 1) (-1) = (S - 1)%Z :: steps.
Proof.
  intros HN. rewrite py_range_down.
  destruct (Z.to_nat N) as [|n] eqn:Hn; [lia|]. cbn [seq map]. eexists. f_equal. lia.
Qed.

(** *** The sampling loop *)

Lemma step_calls_app tr1 tr2 : step_calls (tr1 ++ tr2) = step_calls tr1 ++ step_calls tr2.
Proof. apply omap_app. Qed.

Lemma q_sample_calls_app tr1 tr2 :
  q_sample_calls (tr1 ++ tr2) = q_sample_calls tr1 ++ q_sample_calls tr2.
Proof. apply omap_app. Qed.

Lemma randint_calls_app tr1 tr2 :
  randint_calls (tr1 ++ tr2) = randint_calls tr1 ++ randint_calls tr2.
Proof. apply omap_app. Qed.

Lemma randn_calls_app tr1 tr2 :
  randn_calls (tr1 ++ tr2) = randn_calls tr1 ++ randn_calls tr2.
Proof. apply omap_app. Qed.

Lemma loop_events_filters evs :
  Forall loop_event evs ->
  set_targets_calls evs = [] /\ randn_calls evs = [] /\ q_sample_calls evs = [].
Proof.
  induction 1 as [|e evs He _ (IH1 & IH2 & IH3)]; [repeat split|].
  destruct e; cbn in He; try contradiction; cbn; auto.
Qed.

(** The label redraw records label draws only; when the labels are in
    range it returns, and they stay in range. *)
Lemma redraw_spec self rc kw w :
  let '(pre, r, _) := redraw self rc kw w in
  Forall loop_event pre /\ step_calls pre = []
  /\ (labels_in_range self rc kw ->
      exists kw', r = Ok kw' /\ labels_in_range self rc kw').
Proof.
  unfold redraw.
  destruct (if rc then kw !! "y" else None) as [y|] eqn:Hy.
  - assert (Hrc : rc = true /\ kw !! "y" = Some y) by (destruct rc; [auto | discriminate]).
    destruct Hrc as [-> Hy'].
    destruct (num_classes (model self)) as [n|] eqn:Hn.
    + destruct (in_int64 n && (0 <? n)%Z) eqn:Hok.
      * destruct (randint _ y _ w) as [y' w'].
        split; [repeat constructor|]. split; [reflexivity|].
        intros _. eexists. split; [reflexivity|]. right; right. exists n.
        split; [exact Hn|].
        apply andb_true_iff in Hok as [H1 H2].
        apply in_int64_spec in H1. apply Z.ltb_lt in H2. unfold int64 in H1. lia.
      * split; [constructor|]. split; [reflexivity|].
        intros [Hf | [Hnone | (n' & Hn' & Hr)]]; [discriminate | congruence |].
        rewrite Hn in Hn'. injection Hn' as <-. apply andb_false_iff in Hok as [H1 | H2].
        -- assert (in_int64 n = true) by (apply in_int64_spec; unfold int64; lia). congruence.
        -- apply Z.ltb_ge in H2. lia.
    + split; [constructor|]. split; [reflexivity|].
      intros [Hf | [Hnone | (n' & Hn' & _)]]; [discriminate | congruence | congruence].
  - split; [constructor|]. split; [reflexivity|].
    intros HL. exists kw. split; [reflexivity | exact HL].
Qed.

(** One iteration of the loop: the label redraw, the timestep tensor, the
    read of [self.sample_fn], the sampler call; then the rest of the loop
    from the ["sample"] returned. *)
Lemma sample_loop_cons self rc i steps kw img out st :
  sample_loop self rc (i :: steps) kw img out st
  = let '(pre, r, w) := redraw self rc kw (world st) in
    match r with
    | Raise e => (Raise e, mkState w (trace st ++ pre))
    | Ok kw' =>
        let t := repeat i (sN (shape img)) in
        if forallb in_int64 t then
          match sample_fn self with
          | None => (Raise (AttributeError "sample_fn"), mkState w (trace st ++ pre))
          | Some f =>
              let fn := apply_sample_fn f out in
              let '(o, w') :=
                run_step (diffusion self) fn (model self) img t (conditioning self) kw' w in
              sample_loop self rc steps kw' (out_sample o) (Some o)
                (mkState w' (trace st ++ pre
                             ++ [EvStep (mkStepCall fn (model self) img t (conditioning self)
                                           kw' o)]))
          end
        else (Raise (RangeError "tensor"), mkState w (trace st ++ pre))
    end.
Proof.
  unfold redraw. cbn [sample_loop].
  destruct (if rc then kw !! "y" else None) as [y|].
  - unfold bind at 1. unfold bind at 1, torch_randint.
    destruct (num_classes (model self)) as [n|];
      [|unfold raise; rewrite app_nil_r; by destruct st].
    destruct (in_int64 n && (0 <? n)%Z);
      [|unfold raise; rewrite app_nil_r; by destruct st].
    unfold call at 1. destruct (randint _ y _ (world st)) as [y' w]. unfold ret at 1.
    unfold bind at 1, long_tensor. cbv zeta.
    destruct (forallb in_int64 _); [|reflexivity].
    unfold ret at 1. unfold bind at 1, get_sample_fn.
    destruct (sample_fn self) as [f|]; [|reflexivity].
    unfold ret at 1. unfold bind at 1, call at 1. cbn [world trace].
    destruct (run_step _ _ _ _ _ _ _ w) as [o w']. by rewrite <- app_assoc.
  - unfold bind at 1, ret at 1.
    unfold bind at 1, long_tensor. cbv zeta.
    destruct (forallb in_int64 _);
      [|unfold raise; rewrite app_nil_r; by destruct st].
    unfold ret at 1. unfold bind at 1, get_sample_fn.
    destruct (sample_fn self) as [f|];
      [|unfold raise; rewrite app_nil_r; by destruct st].
    unfold ret at 1. unfold bind at 1, call at 1.
    destruct (run_step _ _ _ _ _ _ _ (world st)) as [o w']. by rewrite app_nil_l.
Qed.

Lemma from_option_last_cons {A B} (g : A -> B) (b : B) (c : A) (l : list A) :
  from_option g b (last (c :: l)) = from_option g (g c) (last l).
Proof.
  destruct l as [|c' l]; [reflexivity|]. rewrite last_cons_cons.
  destruct (last (c' :: l)) eqn:E; [reflexivity|]. apply last_None in E. discriminate.
Qed.

(** A run of the loop, whether it returns or raises: it records label draws
    and sampler calls only, and the sampler calls are chained.  If it
    returns, there is one call for each timestep and the image returned is
    the ["sample"] of the last (the image it started from, if there is
    none).  It returns when a sampler is bound and timesteps and labels are
    in range. *)
Lemma sample_loop_run self rc steps : forall kw img out st,
  exists r w evs,
    sample_loop self rc steps kw img out st = (r, mkState w (trace st ++ evs))
    /\ Forall loop_event evs
    /\ chained self steps img out (step_calls evs)
    /\ (forall final, r = Ok final ->
          length (step_calls evs) = length steps
          /\ final = from_option (fun c => out_sample (call_out c)) img
                       (last (step_calls evs)))
    /\ (Forall int64 steps -> labels_in_range self rc kw ->
        steps = [] \/ is_Some (sample_fn self) ->
        exists final, r = Ok final).
Proof.
  induction steps as [|i steps IH]; intros kw img out st.
  - exists (Ok img), (world st), []. cbn [sample_loop]. unfold ret. rewrite app_nil_r.
    destruct st. split; [reflexivity|]. split; [constructor|]. split; [exact I|].
    split; [intros final [= <-]; split; reflexivity | eauto].
  - rewrite sample_loop_cons.
    pose proof (redraw_spec self rc kw (world st)) as Hre.
    destruct (redraw self rc kw (world st)) as [[pre r0] w].
    destruct Hre as (Hpre & Hsc & Hlab).
    destruct r0 as [kw'|e].
    2:{ exists (Raise e), w, pre. split; [reflexivity|]. split; [exact Hpre|].
        rewrite Hsc. split; [exact I|]. split; [discriminate|].
        intros _ HL _. destruct (Hlab HL) as (kw' & Hkw' & _). discriminate. }
    cbv zeta.
    destruct (forallb in_int64 (repeat i (sN (shape img)))) eqn:Hfit.
    2:{ exists (Raise (RangeError "tensor")), w, pre. split; [reflexivity|].
        split; [exact Hpre|]. rewrite Hsc. split; [exact I|]. split; [discriminate|].
        intros Hint _ _. apply Forall_cons in Hint as [Hi _].
        rewrite (forallb_in_int64_repeat i _ Hi) in Hfit. discriminate. }
    destruct (sample_fn self) as [f|] eqn:Hf.
    2:{ exists (Raise (AttributeError "sample_fn")), w, pre. split; [reflexivity|].
        split; [exact Hpre|]. rewrite Hsc. split; [exact I|]. split; [discriminate|].
        intros _ _ [Hnil | [f Hsome]]; discriminate. }
    destruct (run_step _ _ _ _ _ _ kw' w) as [o w'] eqn:Ho.
    match goal with |- context [mkState w' (trace st ++ pre ++ [EvStep ?c])] =>
      destruct (IH kw' (out_sample o) (Some o) (mkState w' (trace st ++ pre ++ [EvStep c])))
        as (r & w2 & evs & Hrun & Hev & Hch & Hok & Hclean);
      exists r, w2, (pre ++ [EvStep c] ++ evs)
    end.
    cbn [trace] in Hrun. rewrite <- !app_assoc in Hrun.
    split; [exact Hrun|].
    split; [apply Forall_app; split; [exact Hpre|];
            apply Forall_app; split; [repeat constructor | exact Hev]|].
    rewrite !step_calls_app, Hsc.
    match goal with |- context [step_calls [EvStep ?c]] =>
      change (step_calls [EvStep c]) with [c]
    end.
    cbn [app].
    split.
    { cbn [chained call_fn call_model call_x call_t call_cond_fn call_out call_model_kwargs].
      split; [exists f; split; [exact Hf | reflexivity]|].
      do 4 (split; [reflexivity|]).
      split; [exists w; cbn; by rewrite Ho | exact Hch]. }
    split.
    { intros final Hfinal. destruct (Hok final Hfinal) as [Hlen Hlast].
      split; [cbn [length]; by rewrite Hlen|].
      rewrite from_option_last_cons. exact Hlast. }
    intros Hint HL _. apply Forall_cons in Hint as [_ Hint].
    destruct (Hlab HL) as (kw'' & [= <-] & HL').
    apply Hclean; [exact Hint | exact HL' | right; eauto].
Qed.

Lemma chained_lookup self steps : forall img out calls k c,
  chained self steps img out calls ->
  calls !! k = Some c ->
  exists i f, steps !! k = Some i
              /\ sample_fn self = Some f
              /\ call_t c = repeat i (sN (shape (call_x c)))
              /\ call_fn c = apply_sample_fn f (prev_out out calls k)
              /\ call_x c = prev_img img calls k
              /\ call_model c = model self
              /\ call_cond_fn c = conditioning self
              /\ exists w, call_out c
                           = fst (run_step (diffusion self) (call_fn c) (call_model c)
                                    (call_x c) (call_t c) (call_cond_fn c)
                                    (call_model_kwargs c) w).
Proof.
  induction steps as [|i steps IH]; intros img out [|c0 calls] k c Hch Hk;
    cbn in Hch; try contradiction; try discriminate.
  destruct Hch as ((f & Hf & Hfn) & Hm & Hx & Ht & Hc & Hgen & Hch).
  destruct k as [|k].
  - injection Hk as <-. exists i, f. rewrite <- Hx in Ht.
    split; [reflexivity|]. auto 10.
  - cbn in Hk.
    destruct (IH _ _ _ k c Hch Hk)
      as (j & f' & Hj & Hf' & Ht' & Hfn' & Hx' & Hm' & Hc' & Hgen').
    exists j, f'. split; [exact Hj|]. split; [exact Hf'|]. split; [exact Ht'|].
    split; [destruct k; exact Hfn'|]. split; [|auto].
    destruct k as [|k]; cbn in Hx' |- *; [exact Hx'|].
    destruct (calls !! k) eqn:Ek; [exact Hx'|].
    apply lookup_ge_None in Ek. apply lookup_lt_Some in Hk. lia.
Qed.

Lemma chained_head self steps img out calls c :
  chained self steps img out calls -> head calls = Some c -> call_x c = img.
Proof.
  destruct calls, steps; cbn; try contradiction; try discriminate.
  intros (_ & _ & Hx & _) [= <-]. exact Hx.
Qed.

(** With no sampler bound a chain is empty. *)
Lemma chained_unbound self steps img out calls :
  sample_fn self = None -> chained self steps img out calls -> calls = [].
Proof.
  intros Hf. destruct calls, steps; cbn; try contradiction; try reflexivity.
  intros ((f & Hf' & _) & _). congruence.
Qed.

(** Along a chain every call receives, and returns, an image of the
    initial shape, when the one-step sampler keeps the shape. *)
Lemma chained_shapes self steps : forall img out calls,
  (forall d p m x t c kw w, shape (out_sample (fst (run_step d p m x t c kw w))) = shape x) ->
  chained self steps img out calls ->
  Forall (fun c => shape (call_x c) = shape img
                   /\ length (call_t c) = sN (shape img)
                   /\ shape (out_sample (call_out c)) = shape img) calls.
Proof.
  induction steps as [|i steps IH]; intros img out [|c calls] Hstep Hch;
    cbn in Hch; try contradiction; try constructor.
  - destruct Hch as (_ & _ & Hx & Ht & _ & [w Hout] & Hch).
    rewrite Hx, Ht, repeat_length, Hout, Hstep, Hx. auto.
  - destruct Hch as (_ & _ & Hx & Ht & _ & [w Hout] & Hch).
    apply (IH _ _ _ Hstep) in Hch.
    rewrite Hout, Hstep, Hx in Hch. exact Hch.
Qed.

(** *** sample *)

(** [sample] is its prologue followed by the loop. *)
Lemma sample_prologue self img prompts S N kw rc verbose q noise st :
  let level := match q with None => S | Some q => q end in
  sample self img prompts S N kw rc verbose q noise st
  = let '(pre, r, w) := prologue self img prompts level noise (world st) in
    match r with
    | Ok start =>
        sample_loop self rc (py_range (S - 1) (S - N - 1) (-1)) kw start None
          (mkState w (trace st ++ pre))
    | Raise e => (Raise e, mkState w (trace st ++ pre))
    end.
Proof.
  intros level. unfold prologue, sample.
  unfold bind at 1, call at 1. fold level.
  replace (if verbose then tqdm _ else _)
    with (py_range (S - 1) (S - N - 1) (-1)) by (by destruct verbose).
  destruct (0 <? level)%Z eqn:Hpos; [|reflexivity].
  apply Z.ltb_lt in Hpos.
  unfold bind at 1. unfold bind at 1, long_scalar.
  assert (Hlo : (- 2 ^ 63 <=? level)%Z = true) by (apply Z.leb_le; lia).
  rewrite Hlo. cbn [andb].
  destruct (level <? 2 ^ 64)%Z; [|reflexivity].
  unfold ret at 1. unfold call at 1. cbn [world trace]. rewrite noise_timesteps.
  destruct (q_sample _ img _ noise _) as [noised w1]. by rewrite <- app_assoc.
Qed.

(** The prologue registers the targets first; it calls no sampler and
    draws nothing. *)
Lemma prologue_spec self img prompts level noise w :
  let '(pre, _, _) := prologue self img prompts level noise w in
  exists rest,
    pre = EvSetTargets (conditioning self) prompts :: rest
    /\ step_calls pre = [] /\ randint_calls pre = []
    /\ set_targets_calls rest = [] /\ randn_calls rest = [].
Proof.
  unfold prologue. destruct (0 <? level)%Z; [|eexists; repeat split].
  destruct (level <? 2 ^ 64)%Z; [|eexists; repeat split].
  destruct (q_sample _ _ _ _ _). eexists. repeat split.
Qed.

(** A run of [sample], whether it returns or raises: the prologue, then
    the events of the loop, started from the image the prologue leaves. *)
Lemma sample_cases self img prompts S N kw rc verbose q noise st :
  let level := match q with None => S | Some q => q end in
  exists r w pre r0 w0 start evs,
    prologue self img prompts level noise (world st) = (pre, r0, w0)
    /\ (r0 = Ok start \/ start = img)
    /\ sample self img prompts S N kw rc verbose q noise st
       = (r, mkState w (trace st ++ pre ++ evs))
    /\ Forall loop_event evs
    /\ chained self (py_range (S - 1) (S - N - 1) (-1)) start None (step_calls evs)
    /\ (forall final, r = Ok final ->
          r0 = Ok start
          /\ length (step_calls evs) = Z.to_nat N
          /\ final = from_option (fun c => out_sample (call_out c)) start
                       (last (step_calls evs)))
    /\ (in_range self rc kw S N level ->
        (N <= 0)%Z \/ is_Some (sample_fn self) ->
        exists final, r = Ok final).
Proof.
  intros level. rewrite sample_prologue. fold level. cbv zeta.
  assert (Hraise : forall e, snd (fst (prologue self img prompts level noise (world st)))
                             = Raise e -> ~ (level < 2 ^ 64)%Z).
  { unfold prologue. intros e. destruct (0 <? level)%Z; [|discriminate].
    destruct (level <? 2 ^ 64)%Z eqn:Hlt; [destruct (q_sample _ _ _ _ _); discriminate|].
    intros _. apply Z.ltb_ge in Hlt. lia. }
  destruct (prologue self img prompts level noise (world st)) as [[pre r0] w0].
  cbn [fst snd] in Hraise.
  destruct r0 as [start|e].
  - destruct (sample_loop_run self rc (py_range (S - 1) (S - N - 1) (-1)) kw start None
                (mkState w0 (trace st ++ pre)))
      as (r & w & evs & Hrun & Hev & Hch & Hok & Hclean).
    cbn [trace] in Hrun. rewrite <- app_assoc in Hrun.
    exists r, w, pre, (Ok start), w0, start, evs.
    split; [reflexivity|]. split; [by left|]. split; [exact Hrun|].
    split; [exact Hev|]. split; [exact Hch|]. split.
    + intros final Hfinal. destruct (Hok final Hfinal) as [Hlen Hlast].
      rewrite py_range_down_length in Hlen. auto.
    + intros (HS & _ & HL) Hb. apply Hclean; [by apply py_range_down_int64 | exact HL |].
      destruct Hb as [HN | Hb]; [left; by apply py_range_down_nil | by right].
  - exists (Raise e), w0, pre, (Raise e), w0, img, []. rewrite !app_nil_r.
    split; [reflexivity|]. split; [by right|]. split; [reflexivity|].
    split; [constructor|]. split; [exact I|]. split; [discriminate|].
    intros (_ & Hlevel & _) _. destruct (Hraise e eq_refl Hlevel).
Qed.

Lemma prologue_shape self img prompts level noise w pre start w0 :
  (forall d x t n w, shape (fst (q_sample d x t n w)) = shape x) ->
  prologue self img prompts level noise w = (pre, Ok start, w0) ->
  shape start = shape img.
Proof.
  intros Hq. unfold prologue. destruct (0 <? level)%Z; [|by intros [= _ <- _]].
  destruct (level <? 2 ^ 64)%Z; [|discriminate].
  destruct (q_sample _ img _ noise _) as [noised w1] eqn:Hqs. intros [= _ <- _].
  by rewrite <- (Hq (diffusion self) img (repeat (wrap64 (level - 1)) (sN (shape img))) noise
                   (set_targets (conditioning self) prompts w)), Hqs.
Qed.

Lemma chained_final_shape self steps img out calls final :
  (forall d p m x t c kw w, shape (out_sample (fst (run_step d p m x t c kw w))) = shape x) ->
  chained self steps img out calls ->
  final = from_option (fun c => out_sample (call_out c)) img (last calls) ->
  shape final = shape img.
Proof.
  intros Hstep Hch ->. destruct (last calls) as [c|] eqn:Hl; [|reflexivity]. cbn.
  apply last_Some in Hl as [l' ->].
  apply (chained_shapes _ _ _ _ _ Hstep) in Hch.
  apply Forall_app in Hch as [_ Hch]. apply Forall_cons in Hch as [(_ & _ & Hc) _]. exact Hc.
Qed.

(** A positive noise level of at most 64 bits: one forward-noising call,
    at [level - 1] in int64 arithmetic, before the loop, and the loop
    starts from its result. *)
Lemma sample_noises_once self img prompts S N kw rc verbose q noise st :
  let level := match q with None => S | Some q => q end in
  let t := repeat (wrap64 (level - 1)) (sN (shape img)) in
  (0 < level < 2 ^ 64)%Z ->
  exists noised w1 r st' rest,
    q_sample (diffusion self) img t noise
      (set_targets (conditioning self) prompts (world st)) = (noised, w1)
    /\ sample self img prompts S N kw rc verbose q noise st = (r, st')
    /\ trace st' = trace st ++ EvSetTargets (conditioning self) prompts
                             :: EvQSample img t noise noised :: rest
    /\ q_sample_calls rest = []
    /\ (forall c, head (step_calls rest) = Some c -> call_x c = noised).
Proof.
  intros level t [Hpos Hlt]. rewrite sample_prologue. fold level. cbv zeta.
  unfold prologue. fold t.
  apply Z.ltb_lt in Hpos, Hlt. rewrite Hpos, Hlt.
  destruct (q_sample _ img t noise _) as [noised w1] eqn:Hq.
  destruct (sample_loop_run self rc (py_range (S - 1) (S - N - 1) (-1)) kw noised None
              (mkState w1 (trace st ++ [EvSetTargets (conditioning self) prompts;
                                        EvQSample img t noise noised])))
    as (r & w & rest & Hrun & Hev & Hch & _).
  cbn [trace] in Hrun. rewrite <- app_assoc in Hrun.
  destruct (loop_events_filters rest Hev) as (_ & _ & Hqs).
  eexists noised, w1, r, _, rest.
  split; [reflexivity|]. split; [exact Hrun|]. split; [reflexivity|].
  split; [exact Hqs|]. intros c Hc. exact (chained_head _ _ _ _ _ _ Hch Hc).
Qed.

(** A noise level that is not positive: no forward-noising call, and the
    loop starts from the caller's image. *)
Lemma sample_no_noising self img prompts S N kw rc verbose q noise st :
  let level := match q with None => S | Some q => q end in
  (level <= 0)%Z ->
  exists r st' evs,
    sample self img prompts S N kw rc verbose q noise st = (r, st')
    /\ trace st' = trace st ++ evs
    /\ q_sample_calls evs = []
    /\ (forall c, head (step_calls evs) = Some c -> call_x c = img).
Proof.
  intros level Hle. rewrite sample_prologue. fold level. cbv zeta. unfold prologue.
  apply Z.ltb_ge in Hle. rewrite Hle.
  destruct (sample_loop_run self rc (py_range (S - 1) (S - N - 1) (-1)) kw img None
              (mkState (set_targets (conditioning self) prompts (world st))
                 (trace st ++ [EvSetTargets (conditioning self) prompts])))
    as (r & w & evs & Hrun & Hev & Hch & _).
  cbn [trace] in Hrun. rewrite <- app_assoc in Hrun.
  destruct (loop_events_filters evs Hev) as (_ & _ & Hqs).
  eexists r, _, (EvSetTargets (conditioning self) prompts :: evs).
  split; [exact Hrun|]. split; [reflexivity|]. split; [exact Hqs|].
  intros c Hc. exact (chained_head _ _ _ _ _ _ Hch Hc).
Qed.

(** [sample] with a bound sampler on a run in range returns: after the
    prologue the sampler calls are chained from the image that enters the
    loop, one for each timestep, and the image returned is the ["sample"] of
    the last. *)
Lemma sample_in_range self f img prompts S N kw rc verbose q noise st :
  sample_fn self = Some f ->
  let level := match q with None => S | Some q => q end in
  in_range self rc kw S N level ->
  exists final w pre w0 start evs,
    prologue self img prompts level noise (world st) = (pre, Ok start, w0)
    /\ sample self img prompts S N kw rc verbose q noise st
       = (Ok final, mkState w (trace st ++ pre ++ evs))
    /\ step_calls (pre ++ evs) = step_calls evs
    /\ Forall loop_event evs
    /\ chained self (py_range (S - 1) (S - N - 1) (-1)) start None (step_calls evs)
    /\ length (step_calls evs) = Z.to_nat N
    /\ final = from_option (fun c => out_sample (call_out c)) start (last (step_calls evs)).
Proof.
  intros Hf level HR.
  destruct (sample_cases self img prompts S N kw rc verbose q noise st)
    as (r & w & pre & r0 & w0 & start & evs & Hpro & _ & Hrun & Hev & Hch & Hok & Hclean).
  destruct (Hclean HR ltac:(right; eauto)) as [final ->].
  destruct (Hok final eq_refl) as (-> & Hlen & Hlast).
  pose proof (prologue_spec self img prompts level noise (world st)) as Hps.
  fold level in Hpro. rewrite Hpro in Hps. destruct Hps as (rest & _ & Hsc & _).
  exists final, w, pre, w0, start, evs.
  split; [exact Hpro|]. split; [exact Hrun|].
  split; [by rewrite step_calls_app, Hsc|]. auto.
Qed.

(** *** The claims about the sampling loop *)

(** C1, amended.  With a sampler bound, [N >= 1] and a run in range (the
    timesteps fit int64), [sample] returns after exactly [N] calls of the
    one-step sampler.  Every call is made through the bound sampler: the
    algorithm and the parameter fixed at construction, with
    [clip_denoised=False], on the object's network with its guidance
    strategy, and it returns what that sampler returns.  Call [k] (from 0)
    receives the timestep [S - 1 - k] broadcast over the batch, so the
    timesteps run through S-1, S-2, ..., S-N; each call after the first
    receives the ["sample"] of the call before it; and the value returned is
    the ["sample"] of the last call. *)
Theorem sample_invokes_sampler_N_times
    self f img prompts (S N : Z) kw rc verbose q noise st :
  sample_fn self = Some f ->
  (1 <= N)%Z ->
  in_range self rc kw S N (match q with None => S | Some q => q end) ->
  exists final st' evs,
    sample self img prompts S N kw rc verbose q noise st = (Ok final, st')
    /\ trace st' = trace st ++ evs
    /\ length (step_calls evs) = Z.to_nat N
    /\ (forall k c, step_calls evs !! k = Some c ->
          func (call_fn c)
          = match f with
            | lambda_p => p_sample
            | lambda_ddim _ => ddim_sample
            | lambda_plms _ => plms_sample
            end
          /\ kw_eta (call_fn c) = match f with lambda_ddim eta => Some eta | _ => None end
          /\ kw_order (call_fn c) = match f with lambda_plms order => Some order | _ => None end
          /\ kw_clip_denoised (call_fn c) = Some false
          /\ call_model c = model self
          /\ call_cond_fn c = conditioning self
          /\ call_t c = repeat (S - 1 - Z.of_nat k)%Z (sN (shape (call_x c)))
          /\ exists w, call_out c
                       = fst (run_step (diffusion self) (call_fn c) (call_model c)
                                (call_x c) (call_t c) (call_cond_fn c)
                                (call_model_kwargs c) w))
    /\ (forall k c c', step_calls evs !! k = Some c ->
          step_calls evs !! (k + 1) = Some c' ->
          call_x c' = out_sample (call_out c))
    /\ (exists c, step_calls evs !! (Z.to_nat N - 1) = Some c
                  /\ last (step_calls evs) = Some c
                  /\ call_t c = repeat (S - N)%Z (sN (shape (call_x c)))
                  /\ final = out_sample (call_out c)).
Proof.
  intros Hf HN HR.
  destruct (sample_in_range self f img prompts S N kw rc verbose q noise st Hf HR)
    as (final & w & pre & w0 & start & evs & _ & Hrun & Hsc & _ & Hch & Hlen & Hlast).
  exists final, (mkState w (trace st ++ pre ++ evs)), (pre ++ evs).
  rewrite Hsc.
  assert (Hcall : forall k c, step_calls evs !! k = Some c ->
            call_fn c = apply_sample_fn f (prev_out None (step_calls evs) k)
            /\ call_model c = model self
            /\ call_cond_fn c = conditioning self
            /\ call_t c = repeat (S - 1 - Z.of_nat k)%Z (sN (shape (call_x c)))
            /\ exists w, call_out c
                         = fst (run_step (diffusion self) (call_fn c) (call_model c)
                                  (call_x c) (call_t c) (call_cond_fn c)
                                  (call_model_kwargs c) w)).
  { intros k c Hk.
    destruct (chained_lookup _ _ _ _ _ k c Hch Hk)
      as (i & f' & Hi & Hf' & Ht & Hfn & _ & Hm & Hc & Hgen).
    apply py_range_down_lookup in Hi as ->.
    rewrite Hf in Hf'. injection Hf' as <-. auto. }
  split; [exact Hrun|]. split; [reflexivity|]. split; [exact Hlen|]. split.
  { intros k c Hk. destruct (Hcall k c Hk) as (Hfn & Hm & Hc & Ht & Hgen).
    rewrite Hfn at 1 2 3 4.
    split; [by destruct f|]. split; [by destruct f|]. split; [by destruct f|].
    split; [by destruct f|]. auto. }
  split.
  - intros k c c' Hk Hk'. rewrite Nat.add_1_r in Hk'.
    destruct (chained_lookup _ _ _ _ _ (Datatypes.S k) c' Hch Hk')
      as (_ & _ & _ & _ & _ & _ & Hx & _).
    cbn in Hx. by rewrite Hk in Hx.
  - destruct (last (step_calls evs)) as [c|] eqn:Hl.
    + exists c. rewrite last_lookup, Hlen in Hl.
      replace (Nat.pred (Z.to_nat N)) with (Z.to_nat N - 1) in Hl by lia.
      split; [exact Hl|]. split; [reflexivity|]. split.
      * destruct (Hcall _ _ Hl) as (_ & _ & _ & Ht & _). rewrite Ht. f_equal. lia.
      * exact Hlast.
    + apply last_None in Hl. rewrite Hl in Hlen. cbn in Hlen. lia.
Qed.

(** C5.  In every run of [sample], whether it returns or raises, every
    sampler call is made through the bound algorithm.  With PLMS the first
    call receives [old_out=None] and every later call receives, as
    [old_out], the whole dictionary returned by the call before it; the
    ancestral and DDIM calls are given no [old_out].  On a run in range
    these are the [N] calls of the run. *)
Theorem plms_threads_previous_output
    self f img prompts (S N : Z) kw rc verbose q noise st :
  sample_fn self = Some f ->
  exists r st' evs,
    sample self img prompts S N kw rc verbose q noise st = (r, st')
    /\ trace st' = trace st ++ evs
    /\ (forall k c, step_calls evs !! k = Some c ->
          match f with
          | lambda_plms _ =>
              func (call_fn c) = plms_sample
              /\ (k = 0 -> kw_old_out (call_fn c) = Some None)
              /\ (forall k', k = Datatypes.S k' ->
                    exists c', step_calls evs !! k' = Some c'
                               /\ kw_old_out (call_fn c) = Some (Some (call_out c')))
          | lambda_p => func (call_fn c) = p_sample /\ kw_old_out (call_fn c) = None
          | lambda_ddim _ => func (call_fn c) = ddim_sample /\ kw_old_out (call_fn c) = None
          end)
    /\ (in_range self rc kw S N (match q with None => S | Some q => q end) ->
        (exists final, r = Ok final) /\ length (step_calls evs) = Z.to_nat N).
Proof.
  intros Hf.
  destruct (sample_cases self img prompts S N kw rc verbose q noise st)
    as (r & w & pre & r0 & w0 & start & evs & Hpro & _ & Hrun & _ & Hch & Hok & Hclean).
  pose proof (prologue_spec self img prompts (match q with None => S | Some q => q end)
                noise (world st)) as Hps.
  rewrite Hpro in Hps. destruct Hps as (rest & _ & Hsc & _).
  exists r, (mkState w (trace st ++ pre ++ evs)), (pre ++ evs).
  rewrite step_calls_app, Hsc, app_nil_l.
  split; [exact Hrun|]. split; [reflexivity|]. split.
  - intros k c Hk.
    destruct (chained_lookup _ _ _ _ _ k c Hch Hk)
      as (_ & f' & _ & Hf' & _ & Hfn & _).
    rewrite Hf in Hf'. injection Hf' as <-.
    rewrite Hfn. destruct f; cbn; try (split; reflexivity).
    split; [reflexivity|]. split.
    + intros ->. reflexivity.
    + intros k' ->. cbn.
      destruct (step_calls evs !! k') as [c'|] eqn:Hk'.
      * exists c'. split; reflexivity.
      * apply lookup_ge_None in Hk'. apply lookup_lt_Some in Hk. lia.
  - intros HR. destruct (Hclean HR ltac:(right; eauto)) as [final ->].
    destruct (Hok final eq_refl) as (_ & Hlen & _). eauto.
Qed.

(** C6.  [sample] with [q_sample=0] makes no forward-noising call: it is
    the loop run on the caller's image after the targets are registered, and
    the first sampler call, when there is one, receives that image. *)
Theorem sample_q_sample_zero_no_noising
    self img prompts (S N : Z) kw rc verbose noise st :
  let st0 := mkState (set_targets (conditioning self) prompts (world st))
               (trace st ++ [EvSetTargets (conditioning self) prompts]) in
  exists r st' evs,
    sample self img prompts S N kw rc verbose (Some 0%Z) noise st = (r, st')
    /\ sample self img prompts S N kw rc verbose (Some 0%Z) noise st
       = sample_loop self rc (py_range (S - 1) (S - N - 1) (-1)) kw img None st0
    /\ trace st' = trace st ++ evs
    /\ q_sample_calls evs = []
    /\ (forall c, head (step_calls evs) = Some c -> call_x c = img).
Proof.
  intros st0. rewrite sample_prologue. cbv zeta. unfold prologue.
  change (0 <? 0)%Z with false. cbv iota. fold st0.
  destruct (sample_loop_run self rc (py_range (S - 1) (S - N - 1) (-1)) kw img None st0)
    as (r & w & evs & Hrun & Hev & Hch & _).
  subst st0. cbn [trace] in Hrun. rewrite <- app_assoc in Hrun.
  destruct (loop_events_filters evs Hev) as (_ & _ & Hq).
  eexists r, _, (EvSetTargets (conditioning self) prompts :: evs).
  split; [exact Hrun|]. split; [reflexivity|]. split; [reflexivity|].
  split; [exact Hq|]. intros c Hc. exact (chained_head _ _ _ _ _ _ Hch Hc).
Qed.

(** C7.  With a schedule of 50 steps, a bound sampler, and collaborators
    that keep the shape of the image, [forward] on the shape (1,3,64,64)
    draws a standard-normal tensor of that shape, runs [sample] on it with
    [start_step = n_steps = 50], calls the one-step sampler exactly 50 times
    and returns a tensor of shape (1,3,64,64). *)
Theorem forward_fifty_steps self f prompts kw st :
  sample_fn self = Some f ->
  size (use_timesteps (diffusion self)) = 50 ->
  (forall s d w, shape (fst (randn s d w)) = s) ->
  (forall d x t n w, shape (fst (q_sample d x t n w)) = shape x) ->
  (forall d p m x t c kw w, shape (out_sample (fst (run_step d p m x t c kw w))) = shape x) ->
  let s := mkShape 1 3 64 64 in
  exists img0 w0 final st' evs,
    randn s (device self) (world st) = (img0, w0)
    /\ shape img0 = s
    /\ forward self s prompts kw st = (Ok final, st')
    /\ forward self s prompts kw st
       = sample self img0 prompts 50 50 kw false true None None
           (mkState w0 (trace st ++ [EvRandn s img0]))
    /\ trace st' = trace st ++ EvRandn s img0 :: evs
    /\ length (step_calls evs) = 50
    /\ shape final = s.
Proof.
  intros Hf Hsize Hrandn Hq Hstep s.
  destruct (randn s (device self) (world st)) as [img0 w0] eqn:Hr.
  assert (Himg0 : shape img0 = s) by (by rewrite <- (Hrandn s (device self) (world st)), Hr).
  assert (Hfw : forward self s prompts kw st
                = sample self img0 prompts 50 50 kw false true None None
                    (mkState w0 (trace st ++ [EvRandn s img0]))).
  { unfold forward, bind at 1, call at 1. rewrite Hr, Hsize. reflexivity. }
  assert (HR : in_range self false kw 50 50 50).
  { split; [right; unfold int64; lia|]. split; [lia | by left]. }
  destruct (sample_in_range self f img0 prompts 50 50 kw false true None None
              (mkState w0 (trace st ++ [EvRandn s img0])) Hf HR)
    as (final & w & pre & w1 & start & evs & Hpro & Hrun & Hsc & _ & Hch & Hlen & Hlast).
  cbn [trace] in Hrun. rewrite <- app_assoc in Hrun.
  eexists img0, w0, final, _, (pre ++ evs).
  split; [reflexivity|]. split; [exact Himg0|].
  split; [by rewrite Hfw|]. split; [exact Hfw|]. split; [reflexivity|].
  rewrite Hsc. split; [exact Hlen|].
  rewrite (chained_final_shape _ _ _ _ _ _ Hstep Hch Hlast).
  by rewrite (prologue_shape _ _ _ _ _ _ _ _ _ Hq Hpro).
Qed.

(** C10, amended.  With [q_sample] omitted and [0 < start_step <= 2^63]
    the noise level is [start_step]: after the targets are registered the
    caller's image is forward-noised once, at timestep [start_step - 1],
    and the loop starts from the noised image; the same call with
    [q_sample=0] makes no forward-noising call, so the two are not
    equivalent.  [forward] omits [q_sample]: with a schedule that has steps,
    the tensor it draws is forward-noised once before sampling. *)
Theorem omitted_q_sample_noises_once
    self img prompts (S N : Z) kw rc verbose noise shp kw_fwd st :
  (0 < S <= 2 ^ 63)%Z ->
  let cond := conditioning self in
  let t := repeat (S - 1)%Z (sN (shape img)) in
  let total := Z.of_nat (size (use_timesteps (diffusion self))) in
  (exists noised w1 r st' rest,
     q_sample (diffusion self) img t noise (set_targets cond prompts (world st))
     = (noised, w1)
     /\ sample self img prompts S N kw rc verbose None noise st = (r, st')
     /\ trace st' = trace st ++ EvSetTargets cond prompts
                              :: EvQSample img t noise noised :: rest
     /\ q_sample_calls rest = []
     /\ (forall c, head (step_calls rest) = Some c -> call_x c = noised))
  /\ (exists r st' evs,
        sample self img prompts S N kw rc verbose (Some 0%Z) noise st = (r, st')
        /\ trace st' = trace st ++ evs
        /\ q_sample_calls evs = [])
  /\ ((0 < total <= 2 ^ 63)%Z ->
      exists img0 noised r st' rest,
        forward self shp prompts kw_fwd st = (r, st')
        /\ trace st' = trace st ++ EvRandn shp img0 :: EvSetTargets cond prompts
                                 :: EvQSample img0 (repeat (total - 1)%Z (sN (shape img0)))
                                      None noised :: rest
        /\ q_sample_calls rest = []
        /\ (forall c, head (step_calls rest) = Some c -> call_x c = noised)).
Proof.
  intros HS cond t total. split; [|split].
  - pose proof (sample_noises_once self img prompts S N kw rc verbose None noise st
                  ltac:(lia)) as Hn.
    cbv beta iota zeta in Hn. rewrite (wrap64_int64 (S - 1)) in Hn by (unfold int64; lia).
    exact Hn.
  - destruct (sample_no_noising self img prompts S N kw rc verbose (Some 0%Z) noise st
                ltac:(reflexivity)) as (r & st' & evs & Hrun & Htr & Hqs & _).
    exists r, st', evs. auto.
  - intros Htotal.
    unfold forward, bind at 1, call at 1.
    destruct (randn shp (device self) (world st)) as [img0 w0] eqn:Hr.
    fold total.
    pose proof (sample_noises_once self img0 prompts total total kw_fwd false true None None
                  (mkState w0 (trace st ++ [EvRandn shp img0])) ltac:(lia)) as Hn.
    cbv beta iota zeta in Hn. rewrite (wrap64_int64 (total - 1)) in Hn by (unfold int64; lia).
    destruct Hn as (noised & w1 & r & st' & rest & _ & Hrun & Htr & Hqs & Hhd).
    cbn [trace] in Htr. rewrite <- app_assoc in Htr.
    exists img0, noised, r, st', rest.
    split; [exact Hrun|]. split; [exact Htr|]. split; [exact Hqs|]. exact Hhd.
Qed.

(** *** The claims about construction *)

(** C8.  For the two known checkpoints [create_models] returns, and in the
    main network it returns a parameter has gradients enabled if and only if
    its name contains "qkv", "norm" or "proj"; every other parameter is
    frozen.  The network keeps the parameter names it was created with. *)
Theorem create_models_unfreezes_by_name checkpoint respacing steps use_secondary st :
  checkpoint = "uncondImageNet512" \/ checkpoint = "uncondImageNet256" ->
  exists m d s st' config,
    create_models checkpoint respacing steps use_secondary st = (Ok (m, d, s), st')
    /\ map fst (named_parameters m)
       = map fst (named_parameters (fst (create_model_and_diffusion config)))
    /\ forall name p, (name, p) ∈ named_parameters m ->
         (requires_grad p = true <->
          (exists pre post, name = pre +:+ "qkv" +:+ post)
          \/ (exists pre post, name = pre +:+ "norm" +:+ post)
          \/ (exists pre post, name = pre +:+ "proj" +:+ post)).
Proof. exact (create_models_known checkpoint respacing steps use_secondary st). Qed.

(** For the three known sampler kinds and a known checkpoint, construction
    returns an object with its sampler bound. *)
Lemma init_binds_sampler
    grad_modules sampler timesteps model_checkpoint dev ddim_eta plms_order fast st :
  sampler = "p" \/ sampler = "ddim" \/ sampler = "plms" ->
  model_checkpoint = "uncondImageNet512" \/ model_checkpoint = "uncondImageNet256" ->
  exists self st',
    init grad_modules sampler timesteps model_checkpoint dev ddim_eta plms_order fast st
    = (Ok self, st')
    /\ sample_fn self
       = Some (if String.eqb sampler "p" then lambda_p
               else if String.eqb sampler "ddim" then lambda_ddim ddim_eta
               else lambda_plms plms_order).
Proof.
  intros Hs Hck. unfold init.
  destruct (create_models_known model_checkpoint
              (if String.eqb sampler "ddim" then "ddim" +:+ pretty timesteps
               else pretty timesteps) 1000 fast st Hck)
    as (m & d & s & st' & _ & Hcm & _).
  unfold bind. rewrite Hcm. unfold ret.
  eexists _, st'. split; [reflexivity|]. cbn [sample_fn].
  destruct Hs as [-> | [-> | ->]]; reflexivity.
Qed.

(** C2, amended.  For a sampler kind outside {"p", "ddim", "plms"} and a
    known checkpoint, construction raises nothing: it completes normally,
    with the schedule, the guidance strategy and the device set as for any
    other kind, and leaves [sample_fn] unbound; there is no fallback to a
    default sampler. *)
Theorem unknown_sampler_is_left_unbound
    grad_modules sampler timesteps model_checkpoint dev ddim_eta plms_order fast st :
  sampler <> "p" -> sampler <> "ddim" -> sampler <> "plms" ->
  model_checkpoint = "uncondImageNet512" \/ model_checkpoint = "uncondImageNet256" ->
  exists self st' m d s,
    create_models model_checkpoint (pretty timesteps) 1000 fast st = (Ok (m, d, s), st')
    /\ init grad_modules sampler timesteps model_checkpoint dev ddim_eta plms_order fast st
       = (Ok self, st')
    /\ sample_fn self = None
    /\ model self = to dev m
    /\ diffusion self = d
    /\ device self = dev.
Proof.
  intros Hp Hd Hl Hck.
  apply String.eqb_neq in Hp, Hd, Hl.
  unfold init. rewrite Hp, Hd, Hl.
  destruct (create_models_known model_checkpoint (pretty timesteps) 1000 fast st Hck)
    as (m & d & s & st' & _ & Hcm & _).
  unfold bind. rewrite Hcm. unfold ret.
  eexists _, st', m, d, s. repeat split.
Qed.

End Facts.

(** *** The claims, evaluated *)

#[local] Existing Instance toy_types.
#[local] Existing Instance toy_ops.

Example contains_qkv : contains "qkv" "input_blocks.4.1.qkv.weight" = true.
Proof. reflexivity. Qed.

Example contains_not : contains "norm" "out.2.bias" = false.
Proof. reflexivity. Qed.

Example py_range_10_3 : py_range (10 - 1) (10 - 3 - 1) (-1) = [9; 8; 7]%Z.
Proof. reflexivity. Qed.

Example py_range_empty : py_range (10 - 1) (10 - 0 - 1) (-1) = [].
Proof. reflexivity. Qed.

Example wrap64_above : wrap64 (2 ^ 63 + 5 - 1) = (-9223372036854775804)%Z.
Proof. reflexivity. Qed.

(** The timesteps and the histories of a PLMS run of three steps from
    step 10, and the flags [create_models] leaves on the parameters. *)
Example toy_plms_timesteps :
  map call_t (step_calls (trace (snd (toy_sample toy_plms 10 3 (Some 0%Z) toy_state))))
  = [[9]; [8]; [7]]%Z.
Proof. reflexivity. Qed.

Example toy_plms_history :
  let calls := step_calls (trace (snd (toy_sample toy_plms 10 3 (Some 0%Z) toy_state))) in
  map (fun c => kw_old_out (call_fn c)) calls
  = [Some None; Some (call_out <$> calls !! 0); Some (call_out <$> calls !! 1)].
Proof. reflexivity. Qed.

Example toy_unknown_sampler_run :
  match fst (toy_init "euler" toy_state) with
  | Ok self =>
      fst (@sample toy_types toy_ops self toy_image "a prompt" 10 3 ∅ false true None None
             toy_state)
      = Raise (AttributeError "sample_fn")
  | Raise _ => False
  end.
Proof. reflexivity. Qed.

Example toy_flags :
  match fst (@create_models toy_types toy_ops "uncondImageNet512" "100" 1000 true toy_state) with
  | Ok (m, _, _) =>
      map (fun np => (fst np, requires_grad (snd np))) (named_parameters m)
      = [ ("input_blocks.0.0.weight", false);
          ("input_blocks.4.1.norm.weight", true);
          ("input_blocks.4.1.qkv.weight", true);
          ("input_blocks.4.1.proj_out.weight", true);
          ("out.2.bias", false) ]
  | Raise _ => False
  end.
Proof. reflexivity. Qed.

(** C1, as the claim states it, fails: with [start_step = 2^63 + 1] and
    [n_steps = 1] the first timestep, 2^63, does not fit the [torch.long]
    tensor it is put in; the run raises and no one-step sampler has been
    called. *)
Lemma sample_first_timestep_overflows :
  (1 <= 1)%Z
  /\ fst (toy_sample toy_ddim (2 ^ 63 + 1) 1 None toy_state) = Raise (RangeError "tensor")
  /\ step_calls (trace (snd (toy_sample toy_ddim (2 ^ 63 + 1) 1 None toy_state))) = []
  /\ length (step_calls (trace (snd (toy_sample toy_ddim (2 ^ 63 + 1) 1 None toy_state))))
     <> Z.to_nat 1.
Proof. split; [lia|]. split; [reflexivity|]. split; [reflexivity | discriminate]. Qed.

Lemma sample_invokes_sampler_N_times_witness :
  exists final st' evs,
    toy_sample toy_ddim 10 3 None toy_state = (Ok final, st')
    /\ trace st' = trace toy_state ++ evs
    /\ length (step_calls evs) = 3
    /\ (forall k c, step_calls evs !! k = Some c ->
          func (call_fn c) = ddim_sample
          /\ kw_eta (call_fn c) = Some 0%Z
          /\ call_t c = repeat (10 - 1 - Z.of_nat k)%Z (sN (shape (call_x c)))).
Proof.
  destruct (sample_invokes_sampler_N_times (toy_self (Some toy_ddim)) toy_ddim
              toy_image "a prompt" 10 3 ∅ false true None None toy_state)
    as (final & st' & evs & Hrun & Htr & Hlen & Hcalls & _);
    [reflexivity | lia
    | split; [right; unfold int64; lia | split; [lia | left; reflexivity]] |].
  exists final, st', evs. split; [exact Hrun|]. split; [exact Htr|]. split; [exact Hlen|].
  intros k c Hk. destruct (Hcalls k c Hk) as (Hfn & Heta & _ & _ & _ & _ & Ht & _). auto.
Defined.

(** C2, as the claim states it, fails: with the sampler kind "euler"
    construction completes normally. *)
Lemma unknown_sampler_constructs :
  ("euler" ∉ ["p"; "ddim"; "plms"])
  /\ (exists self st', toy_init "euler" toy_state = (Ok self, st')).
Proof.
  split.
  - intros Hin. repeat (apply elem_of_cons in Hin as [Hin|Hin]; [discriminate|]).
    by apply elem_of_nil in Hin.
  - eexists _, _. reflexivity.
Qed.

Lemma unknown_sampler_is_left_unbound_witness :
  exists self st',
    toy_init "euler" toy_state = (Ok self, st')
    /\ sample_fn self = None
    /\ device self = "cpu".
Proof.
  destruct (@unknown_sampler_is_left_unbound toy_types toy_ops tt "euler" 100
              "uncondImageNet512" "cpu" 0%Z 2%Z true toy_state)
    as (self & st' & m & d & s & _ & Hinit & Hfn & _ & _ & Hdev);
    [discriminate | discriminate | discriminate | left; reflexivity |].
  exists self, st'. auto.
Defined.

Lemma plms_threads_previous_output_witness :
  exists final st' evs c0 c1,
    toy_sample toy_plms 4 4 (Some 0%Z) toy_state = (Ok final, st')
    /\ trace st' = trace toy_state ++ evs
    /\ length (step_calls evs) = 4
    /\ step_calls evs !! 0 = Some c0
    /\ step_calls evs !! 1 = Some c1
    /\ kw_old_out (call_fn c0) = Some None
    /\ kw_old_out (call_fn c1) = Some (Some (call_out c0)).
Proof.
  destruct (plms_threads_previous_output (toy_self (Some toy_plms)) toy_plms
              toy_image "a prompt" 4 4 ∅ false true (Some 0%Z) None toy_state)
    as (r & st' & evs & Hrun & Htr & Hcalls & Hcount); [reflexivity|].
  destruct Hcount as [[final ->] Hlen];
    [split; [right; unfold int64; lia | split; [lia | left; reflexivity]]|].
  destruct (step_calls evs !! 0) as [c0|] eqn:H0;
    [|apply lookup_ge_None in H0; rewrite Hlen in H0; cbn in H0; lia].
  destruct (step_calls evs !! 1) as [c1|] eqn:H1;
    [|apply lookup_ge_None in H1; rewrite Hlen in H1; cbn in H1; lia].
  exists final, st', evs, c0, c1.
  split; [exact Hrun|]. split; [exact Htr|]. split; [exact Hlen|].
  split; [exact H0|]. split; [exact H1|].
  destruct (Hcalls 0 c0 H0) as (_ & Hfirst & _).
  destruct (Hcalls 1 c1 H1) as (_ & _ & Hnext).
  destruct (Hnext 0 eq_refl) as (c0' & Hc0' & Hold).
  rewrite H0 in Hc0'. injection Hc0' as <-.
  split; [exact (Hfirst eq_refl) | exact Hold].
Defined.

Lemma forward_fifty_steps_witness :
  exists final st',
    toy_forward toy_p toy_state = (Ok final, st')
    /\ shape final = mkShape 1 3 64 64.
Proof.
  destruct (forward_fifty_steps (toy_self (Some toy_p)) toy_p "a prompt" ∅ toy_state)
    as (img0 & w0 & final & st' & evs & _ & _ & Hrun & _ & _ & _ & Hshape);
    [reflexivity | vm_compute; reflexivity | reflexivity | reflexivity | reflexivity |].
  exists final, st'. auto.
Defined.

Lemma create_models_unfreezes_by_name_witness :
  exists m d s st',
    @create_models toy_types toy_ops "uncondImageNet256" "ddim50" 1000 false toy_state
    = (Ok (m, d, s), st').
Proof.
  destruct (@create_models_unfreezes_by_name toy_types toy_ops "uncondImageNet256"
              "ddim50" 1000 false toy_state) as (m & d & s & st' & config & Hrun & _);
    [right; reflexivity|].
  exists m, d, s, st'. exact Hrun.
Defined.

(** C10, as the claim states it, fails: with [q_sample] omitted and
    [start_step = 2^63 + 5] the forward noising is applied at the timestep
    that int64 arithmetic makes of [start_step - 1]. *)
Lemma omitted_q_sample_wraps :
  (0 < 2 ^ 63 + 5)%Z
  /\ q_sample_calls (trace (snd (toy_sample toy_p (2 ^ 63 + 5) 0 None toy_state)))
     = [(toy_image, [(-9223372036854775804)%Z], None, toy_image)]
  /\ (-9223372036854775804)%Z <> (2 ^ 63 + 5 - 1)%Z.
Proof. split; [reflexivity|]. split; [reflexivity | discriminate]. Qed.

Lemma omitted_q_sample_noises_once_witness :
  exists noised r st' rest,
    toy_sample toy_p 5 5 None toy_state = (r, st')
    /\ trace st' = trace toy_state
                   ++ @EvSetTargets toy_types tt "a prompt"
                      :: EvQSample toy_image (repeat 4%Z 1) None noised :: rest.
Proof.
  destruct (omitted_q_sample_noises_once (toy_self (Some toy_p)) toy_image "a prompt"
              5 5 ∅ false true None (mkShape 1 3 64 64) ∅ toy_state)
    as [(noised & w1 & r & st' & rest & _ & Hrun & Htr & _) _]; [lia|].
  exists noised, r, st', rest. auto.
Defined.

End GuidedFacts.

(** ** More about model construction *)

Module ConstructionFacts.
Import Guided GuidedFacts.

Section Facts.
Context `{Ops}.

Lemma fetch_run url path st :
  fetch url path st = (Ok tt, mkState (fetched url path (world st)) (trace st)).
Proof.
  unfold fetch, fetched, bind, read_world, on_world, ret.
  destruct (path_exists path (world st)); cbn; [destruct st|]; reflexivity.
Qed.

Lemma get_checkpoint_run name url path size st :
  known_checkpoint name url path size ->
  get_checkpoint name st
  = (Ok (path, {["image_size" := CInt size]}),
     mkState (fetched url path (world st)) (trace st)).
Proof.
  intros [(-> & -> & -> & ->) | (-> & -> & -> & ->)];
    unfold get_checkpoint; cbn [String.eqb Ascii.eqb Bool.eqb];
    unfold bind; rewrite fetch_run; reflexivity.
Qed.

(** What [create_models] returns for a known checkpoint, step by step. *)
Lemma create_models_run name url path size respacing steps (use_secondary : bool) st :
  known_checkpoint name url path size ->
  let w1 := fetched url path (world st) in
  let config :=
    dict_update
      (dict_update model_and_diffusion_defaults (config_overrides respacing steps))
      {["image_size" := CInt size]} in
  let created := create_model_and_diffusion config in
  let m := convert_to_fp16 (unfreeze (eval (requires_grad_ false
             (load_state_dict (torch_load path w1) (fst created))))) in
  let w2 := if use_secondary then fetched url_secondary secondary_path w1 else w1 in
  let s := if use_secondary
           then Some (load_secondary (torch_load secondary_path w2)) else None in
  create_models name respacing steps use_secondary st
  = (Ok (m, snd created, s), mkState w2 (trace st)).
Proof.
  intros Hk w1 config created m w2 s.
  unfold create_models. unfold bind at 1. rewrite (get_checkpoint_run _ _ _ _ _ Hk).
  fold w1 config. fold created. rewrite (surjective_pairing created).
  unfold bind at 1, read_world at 1. cbn [world trace].
  unfold bind at 1, dict_get. unfold config at 1. rewrite model_config_use_fp16.
  unfold ret at 1. cbn [truthy]. fold m.
  subst w2 s. destruct use_secondary.
  - unfold bind at 1. unfold bind at 1. rewrite fetch_run. cbn [world trace].
    unfold bind, read_world, ret. cbn [world trace]. reflexivity.
  - unfold bind, ret. reflexivity.
Qed.

(** What [__init__] returns for a known checkpoint, step by step. *)
Lemma init_run grad_modules sampler timesteps name url path size dev ddim_eta plms_order
    (fast : bool) st :
  known_checkpoint name url path size ->
  let respacing :=
    if String.eqb sampler "ddim" then "ddim" +:+ pretty timesteps else pretty timesteps in
  let w1 := fetched url path (world st) in
  let config :=
    dict_update
      (dict_update model_and_diffusion_defaults (config_overrides respacing 1000))
      {["image_size" := CInt size]} in
  let created := create_model_and_diffusion config in
  let m := convert_to_fp16 (unfreeze (eval (requires_grad_ false
             (load_state_dict (torch_load path w1) (fst created))))) in
  let w2 := if fast then fetched url_secondary secondary_path w1 else w1 in
  let guided_on :=
    if fast then OnSecondary (Some (load_secondary (torch_load secondary_path w2)))
    else OnMain m in
  let fn :=
    if String.eqb sampler "p" then Some lambda_p
    else if String.eqb sampler "ddim" then Some (lambda_ddim ddim_eta)
    else if String.eqb sampler "plms" then Some (lambda_plms plms_order)
    else None in
  init grad_modules sampler timesteps name dev ddim_eta plms_order fast st
  = (Ok (mkGuidedDiffusion (to dev m) (snd created)
           (conditioning_to dev (make_conditioning fast (snd created) guided_on grad_modules))
           fn dev),
     mkState w2 (trace st)).
Proof.
  intros Hk respacing w1 config created m w2 guided_on fn.
  unfold init. fold respacing. unfold bind.
  rewrite (create_models_run _ _ _ _ respacing 1000 fast st Hk).
  fold w1 config. fold created. fold m. fold w2. unfold ret.
  subst guided_on. destruct fast; reflexivity.
Qed.

(** X1.  A checkpoint name that is neither of the two known ones makes
    [get_checkpoint] raise at its [return] (no branch has assigned
    [checkpoint_path]); [create_models] and [__init__] pass the exception
    on, for every sampler kind, and nothing has been fetched or built. *)
Theorem unknown_checkpoint_raises
    name grad_modules sampler timesteps dev ddim_eta plms_order fast
    respacing steps use_secondary st :
  name <> "uncondImageNet512" -> name <> "uncondImageNet256" ->
  get_checkpoint name st = (Raise (UnboundLocalError "checkpoint_path"), st)
  /\ create_models name respacing steps use_secondary st
     = (Raise (UnboundLocalError "checkpoint_path"), st)
  /\ init grad_modules sampler timesteps name dev ddim_eta plms_order fast st
     = (Raise (UnboundLocalError "checkpoint_path"), st).
Proof.
  intros H512 H256. apply String.eqb_neq in H512, H256.
  assert (Hget : get_checkpoint name st
                 = (Raise (UnboundLocalError "checkpoint_path"), st)).
  { unfold get_checkpoint. rewrite H512, H256. reflexivity. }
  assert (Hcm : forall respacing steps use_secondary,
             create_models name respacing steps use_secondary st
             = (Raise (UnboundLocalError "checkpoint_path"), st)).
  { intros. unfold create_models. unfold bind at 1. rewrite Hget. reflexivity. }
  split; [exact Hget|]. split; [apply Hcm|].
  unfold init, bind. rewrite Hcm. reflexivity.
Qed.


(** X3.  For a known checkpoint the main network comes back in evaluation
    mode with its parameters in their original order and under their
    original names, each holding the payload read from the checkpoint's
    path (after the file was fetched there) and converted to half
    precision; this holds whatever [use_fp16] the defaults carry.  Nothing
    else of the network changes. *)
Theorem create_models_loads_then_halves
    name url path size respacing steps use_secondary st :
  known_checkpoint name url path size ->
  exists m d s st' config,
    create_models name respacing steps use_secondary st = (Ok (m, d, s), st')
    /\ let m0 := fst (create_model_and_diffusion config) in
       let sd := torch_load path (fetched url path (world st)) in
       named_parameters m
       = map (fun np => (fst np,
                         mkNNParameter (unfrozen_name (fst np))
                           (half_data (fst np) (load_data sd (fst np) (data (snd np))))))
             (named_parameters m0)
       /\ training m = false
       /\ num_classes m = num_classes m0
       /\ body m = body m0.
Proof.
  intros Hk.
  eexists _, _, _, _, _. split.
  - exact (create_models_run _ _ _ _ respacing steps use_secondary st Hk).
  - cbv zeta. split; [|repeat split].
    unfold convert_to_fp16, unfreeze, eval, requires_grad_, load_state_dict,
      map_data, map_params.
    cbn [named_parameters]. rewrite !map_map. apply map_ext. intros [pname p].
    cbn [fst snd param_requires_grad_ data requires_grad].
    destruct (unfrozen_name pname); reflexivity.
Qed.


(** X5.  What [__init__] wires together for a known checkpoint: it calls
    [create_models] with the respacing "ddim<timesteps>" for the DDIM
    sampler and "<timesteps>" for every other kind, over 1000 diffusion
    steps, and with [use_secondary = fast]; the schedule of the object is
    the one [create_models] returned; the guidance strategy is built on the
    secondary model [create_models] returned when [fast] is set (the one
    loaded from the secondary checkpoint) and on the main network it
    returned otherwise; network and strategy are moved to the device. *)
Theorem init_wires_schedule_and_guidance
    grad_modules sampler timesteps name url path size dev ddim_eta plms_order
    (fast : bool) st :
  known_checkpoint name url path size ->
  let respacing :=
    if String.eqb sampler "ddim" then "ddim" +:+ pretty timesteps else pretty timesteps in
  exists self st' config m secondary,
    create_models name respacing 1000 fast st
    = (Ok (m, snd (create_model_and_diffusion config), secondary), st')
    /\ init grad_modules sampler timesteps name dev ddim_eta plms_order fast st
       = (Ok self, st')
    /\ config !! "timestep_respacing" = Some (CStr respacing)
    /\ config !! "diffusion_steps" = Some (CInt 1000)
    /\ config !! "image_size" = Some (CInt size)
    /\ diffusion self = snd (create_model_and_diffusion config)
    /\ device self = dev
    /\ model self = to dev m
    /\ conditioning self
       = conditioning_to dev
           (make_conditioning fast (diffusion self)
              (if fast then OnSecondary secondary else OnMain m) grad_modules)
    /\ secondary
       = (if fast
          then Some (load_secondary
                       (torch_load secondary_path
                          (fetched url_secondary secondary_path
                             (fetched url path (world st)))))
          else None).
Proof.
  intros Hk respacing.
  pose proof (init_run grad_modules sampler timesteps _ _ _ _ dev ddim_eta plms_order
                fast st Hk) as Hrun.
  pose proof (create_models_run _ _ _ _ respacing 1000 fast st Hk) as Hcm.
  cbv zeta in Hrun, Hcm. fold respacing in Hrun.
  eexists _, _, _, _, _.
  split; [exact Hcm|]. split; [exact Hrun|]. cbn [diffusion device model conditioning].
  split; [unfold dict_update; rewrite lookup_union_r by (by apply lookup_singleton_ne);
          by apply lookup_union_Some_l|].
  split; [unfold dict_update; rewrite lookup_union_r by (by apply lookup_singleton_ne);
          by apply lookup_union_Some_l|].
  split; [unfold dict_update; apply lookup_union_Some_l, lookup_singleton_eq|].
  split; [reflexivity|]. split; [reflexivity|]. split; [reflexivity|].
  split; destruct fast; reflexivity.
Qed.

End Facts.

(** *** Evaluated *)

Example ddim_respacing : "ddim" +:+ pretty 100%Z = "ddim100".
Proof. reflexivity. Qed.

Lemma unknown_checkpoint_raises_witness :
  @init toy_types toy_ops tt "ddim" 100 "imagenet64" "cpu" 0%Z 2%Z true toy_state
  = (Raise (UnboundLocalError "checkpoint_path"), toy_state).
Proof.
  apply (@unknown_checkpoint_raises toy_types toy_ops "imagenet64" tt "ddim" 100 "cpu"
           0%Z 2%Z true "100" 1000 true toy_state); discriminate.
Defined.


Lemma create_models_loads_then_halves_witness :
  exists m d s st',
    @create_models toy_types cached_ops "uncondImageNet256" "50" 1000 false toy_state
    = (Ok (m, d, s), st')
    /\ training m = false.
Proof.
  destruct (@create_models_loads_then_halves toy_types cached_ops "uncondImageNet256"
              url_256 "modelzoo/256x256_diffusion_uncond.pt" 256 "50" 1000 false toy_state)
    as (m & d & s & st' & config & Hrun & _ & Htr & _); [right; repeat split|].
  exists m, d, s, st'. auto.
Defined.


Lemma init_wires_schedule_and_guidance_witness :
  exists self st' m secondary,
    @create_models toy_types toy_ops "uncondImageNet256" "ddim100" 1000 true toy_state
    = (Ok (m, toy_diffusion, secondary), st')
    /\ @init toy_types toy_ops tt "ddim" 100 "uncondImageNet256" "cpu" 0%Z 2%Z true toy_state
       = (Ok self, st')
    /\ model self = @to toy_types toy_ops "cpu" m
    /\ diffusion self = toy_diffusion
    /\ secondary = Some Denoiser.zero_model.
Proof.
  destruct (@init_wires_schedule_and_guidance toy_types toy_ops tt "ddim" 100
              "uncondImageNet256" url_256 "modelzoo/256x256_diffusion_uncond.pt" 256
              "cpu" 0%Z 2%Z true toy_state)
    as (self & st' & config & m & sec & Hcm & Hrun & _ & _ & _ & Hd & _ & Hm & _ & Hsec);
    [right; repeat split|].
  exists self, st', m, sec. auto.
Defined.

End ConstructionFacts.

(** ** More about the sampling loop *)

Module SamplingFacts.
Import Guided GuidedFacts.

Section Facts.
Context `{Ops}.

Lemma set_targets_calls_app tr1 tr2 :
  set_targets_calls (tr1 ++ tr2) = set_targets_calls tr1 ++ set_targets_calls tr2.
Proof. apply omap_app. Qed.

Lemma trace_of_calls (calls : list StepCall) :
  randint_calls (map EvStep calls) = []
  /\ randn_calls (map EvStep calls) = []
  /\ step_calls (map EvStep calls) = calls.
Proof.
  induction calls as [|c calls (IH1 & IH2 & IH3)]; [repeat split|].
  cbn. split; [exact IH1|]. split; [exact IH2 | by rewrite <- IH3 at 2].
Qed.

(** X6.  Every call of [sample] registers the prompts with the guidance
    strategy exactly once, before anything else, whether the run returns or
    raises; it draws no image noise of its own. *)
Theorem sample_registers_targets_once
    self img prompts (S N : Z) kw rc verbose q noise st :
  exists r st' rest,
    sample self img prompts S N kw rc verbose q noise st = (r, st')
    /\ trace st' = trace st ++ EvSetTargets (conditioning self) prompts :: rest
    /\ set_targets_calls rest = []
    /\ randn_calls rest = [].
Proof.
  destruct (sample_cases self img prompts S N kw rc verbose q noise st)
    as (r & w & pre & r0 & w0 & start & evs & Hpro & _ & Hrun & Hev & _).
  pose proof (prologue_spec self img prompts (match q with None => S | Some q => q end)
                noise (world st)) as Hps.
  rewrite Hpro in Hps. destruct Hps as (rest & -> & _ & _ & Hst & Hrn).
  destruct (loop_events_filters evs Hev) as (H1 & H2 & _).
  eexists r, _, (rest ++ evs). split; [exact Hrun|]. split; [reflexivity|].
  by rewrite set_targets_calls_app, randn_calls_app, Hst, Hrn, H1, H2.
Qed.


(** X8.  An explicit positive [q_sample] of at most 64 bits sets the noise
    level whatever [start_step] is: the caller's image is forward-noised
    exactly once, with the caller's [noise], at the timestep that int64
    arithmetic makes of [q_sample - 1], broadcast over the batch: this is
    [q_sample - 1] up to [q_sample = 2^63] and [q_sample - 1 - 2^64] above.
    The first sampler call receives the noised image. *)
Theorem explicit_noise_level self img prompts (S N q : Z) kw rc verbose noise st :
  (0 < q < 2 ^ 64)%Z ->
  let t := repeat (wrap64 (q - 1)) (sN (shape img)) in
  wrap64 (q - 1) = (if (q <=? 2 ^ 63)%Z then q - 1 else q - 1 - 2 ^ 64)%Z
  /\ exists noised w1 r st' rest,
       q_sample (diffusion self) img t noise
         (set_targets (conditioning self) prompts (world st)) = (noised, w1)
       /\ sample self img prompts S N kw rc verbose (Some q) noise st = (r, st')
       /\ trace st' = trace st ++ EvSetTargets (conditioning self) prompts
                                :: EvQSample img t noise noised :: rest
       /\ q_sample_calls rest = []
       /\ (forall c, head (step_calls rest) = Some c -> call_x c = noised).
Proof.
  intros Hq t. split.
  - destruct (q <=? 2 ^ 63)%Z eqn:Hle.
    + apply Z.leb_le in Hle. apply wrap64_int64. unfold int64. lia.
    + apply Z.leb_gt in Hle. rewrite wrap64_high by lia. lia.
  - exact (sample_noises_once self img prompts S N kw rc verbose (Some q) noise st Hq).
Qed.

(** X9.  A noise level that is not positive, be it an explicit [q_sample]
    below one or an omitted [q_sample] with [start_step <= 0], skips the
    forward noising: no [q_sample] call is made and the first sampler call,
    if any, receives the caller's image. *)
Theorem nonpositive_noise_level_skips_noising
    self img prompts (S N : Z) kw rc verbose q noise st :
  (match q with None => S | Some q => q end <= 0)%Z ->
  exists r st' evs,
    sample self img prompts S N kw rc verbose q noise st = (r, st')
    /\ trace st' = trace st ++ evs
    /\ q_sample_calls evs = []
    /\ (forall c, head (step_calls evs) = Some c -> call_x c = img).
Proof.
  intros Hle. exact (sample_no_noising self img prompts S N kw rc verbose q noise st Hle).
Qed.

(** The loop when no label is redrawn, whether it returns or raises. *)
Lemma sample_loop_plain self (rc : bool) steps kw : forall img out st,
  rc = false \/ kw !! "y" = None ->
  exists r w calls,
    sample_loop self rc steps kw img out st
    = (r, mkState w (trace st ++ map EvStep calls))
    /\ Forall (fun c => call_model_kwargs c = kw) calls.
Proof.
  induction steps as [|i steps IH]; intros img out st Hplain.
  - exists (Ok img), (world st), []. cbn. unfold ret. rewrite app_nil_r. destruct st.
    split; [reflexivity | constructor].
  - rewrite sample_loop_cons.
    assert (Hre : redraw self rc kw (world st) = ([], Ok kw, world st)).
    { unfold redraw. destruct Hplain as [-> | Hy]; [reflexivity|].
      rewrite Hy. by destruct rc. }
    rewrite Hre. cbv zeta.
    assert (Hstop : forall e, exists r w calls,
              (@Raise Tensor4 e, mkState (world st) (trace st ++ []))
              = (r, mkState w (trace st ++ map EvStep calls))
              /\ Forall (fun c => call_model_kwargs c = kw) calls).
    { intros e. exists (Raise e), (world st), []. split; [reflexivity | constructor]. }
    destruct (forallb in_int64 _); [|apply Hstop].
    destruct (sample_fn self) as [f|]; [|apply Hstop].
    destruct (run_step _ _ _ _ _ _ kw (world st)) as [o w'].
    match goal with |- context [mkState w' (trace st ++ [] ++ [EvStep ?c])] =>
      destruct (IH (out_sample o) (Some o) (mkState w' (trace st ++ [] ++ [EvStep c]))
                  Hplain) as (r & w & calls & Hrun & Hkw);
      exists r, w, (c :: calls)
    end.
    cbn [trace app] in Hrun. rewrite <- app_assoc in Hrun.
    split; [exact Hrun|]. constructor; [reflexivity | exact Hkw].
Qed.

(** [sample] when no label is redrawn. *)
Lemma sample_plain self img prompts (S N : Z) kw (rc : bool) verbose q noise st :
  rc = false \/ kw !! "y" = None ->
  let level := match q with None => S | Some q => q end in
  exists r st' evs,
    sample self img prompts S N kw rc verbose q noise st = (r, st')
    /\ trace st' = trace st ++ evs
    /\ randint_calls evs = []
    /\ (exists rest, evs = EvSetTargets (conditioning self) prompts :: rest
                     /\ randn_calls rest = [])
    /\ Forall (fun c => call_model_kwargs c = kw) (step_calls evs)
    /\ (in_range self rc kw S N level -> (N <= 0)%Z \/ is_Some (sample_fn self) ->
        exists final, r = Ok final).
Proof.
  intros Hplain level.
  destruct (sample_cases self img prompts S N kw rc verbose q noise st)
    as (r' & w' & pre' & r0' & w0' & start' & evs' & _ & _ & Hrun' & _ & _ & _ & Hclean).
  fold level in Hclean.
  rewrite sample_prologue in Hrun' |- *. fold level in Hrun' |- *. cbv zeta in Hrun' |- *.
  pose proof (prologue_spec self img prompts level noise (world st)) as Hps.
  destruct (prologue self img prompts level noise (world st)) as [[pre r0] w0].
  destruct Hps as (rest & -> & Hsc & Hri & _ & Hrn).
  destruct r0 as [start|e].
  - destruct (sample_loop_plain self rc (py_range (S - 1) (S - N - 1) (-1)) kw start None
                (mkState w0 (trace st ++ EvSetTargets (conditioning self) prompts :: rest))
                Hplain)
      as (r & w & calls & Hrun & Hkw).
    rewrite Hrun in Hrun' |- *. injection Hrun' as -> _.
    destruct (trace_of_calls calls) as (Hc1 & Hc2 & Hc3).
    eexists r', _, ((EvSetTargets (conditioning self) prompts :: rest) ++ map EvStep calls).
    split; [reflexivity|]. split; [cbn [trace]; by rewrite app_assoc|].
    split; [by rewrite randint_calls_app, Hri, Hc1|].
    split; [exists (rest ++ map EvStep calls); split; [reflexivity|];
            by rewrite randn_calls_app, Hrn, Hc2|].
    split; [by rewrite step_calls_app, Hsc, Hc3|]. exact Hclean.
  - injection Hrun' as <- _.
    eexists (Raise e), _, _. split; [reflexivity|]. split; [reflexivity|].
    split; [exact Hri|]. split; [eexists; split; [reflexivity | exact Hrn]|].
    split; [rewrite Hsc; constructor | exact Hclean].
Qed.

(** X10.  Unless [randomize_class] is set and [model_kwargs] has a "y",
    [sample] draws no label and hands the caller's [model_kwargs],
    unchanged, to every one-step-sampler call, whether the run returns or
    raises; with a sampler bound it returns on every run in range. *)
Theorem sample_passes_model_kwargs
    self f img prompts (S N : Z) kw (rc : bool) verbose q noise st :
  sample_fn self = Some f ->
  rc = false \/ kw !! "y" = None ->
  exists r st' evs,
    sample self img prompts S N kw rc verbose q noise st = (r, st')
    /\ trace st' = trace st ++ evs
    /\ randint_calls evs = []
    /\ Forall (fun c => call_model_kwargs c = kw) (step_calls evs)
    /\ (in_range self rc kw S N (match q with None => S | Some q => q end) ->
        exists final, r = Ok final).
Proof.
  intros Hf Hplain.
  destruct (sample_plain self img prompts S N kw rc verbose q noise st Hplain)
    as (r & st' & evs & Hrun & Htr & Hri & _ & Hkw & Hclean).
  exists r, st', evs. split; [exact Hrun|]. split; [exact Htr|]. split; [exact Hri|].
  split; [exact Hkw|]. intros HR. apply Hclean; [exact HR | right; eauto].
Qed.

(** X21.  [forward] draws exactly one tensor, the starting image, and never
    redraws a class label: even when [model_kwargs] carries a "y", every
    one-step-sampler call receives the caller's [model_kwargs] unchanged.
    With a sampler bound and a schedule of fewer than 2^63 steps it
    returns. *)
Theorem forward_passes_model_kwargs self f shp prompts kw st :
  sample_fn self = Some f ->
  exists img0 r st' evs,
    forward self shp prompts kw st = (r, st')
    /\ trace st' = trace st ++ EvRandn shp img0 :: evs
    /\ randn_calls evs = []
    /\ randint_calls evs = []
    /\ Forall (fun c => call_model_kwargs c = kw) (step_calls evs)
    /\ ((Z.of_nat (size (use_timesteps (diffusion self))) < 2 ^ 63)%Z ->
        exists final, r = Ok final).
Proof.
  intros Hf. unfold forward, bind at 1, call at 1.
  destruct (randn shp (device self) (world st)) as [img0 w0].
  set (n := Z.of_nat (size (use_timesteps (diffusion self)))).
  destruct (sample_plain self img0 prompts n n kw false true None None
              (mkState w0 (trace st ++ [EvRandn shp img0])) ltac:(left; reflexivity))
    as (r & st' & evs & Hrun & Htr & Hri & (rest & -> & Hrn) & Hkw & Hclean).
  cbn [trace] in Htr. rewrite <- app_assoc in Htr.
  exists img0, r, st', (EvSetTargets (conditioning self) prompts :: rest).
  split; [exact Hrun|]. split; [exact Htr|]. split; [exact Hrn|]. split; [exact Hri|].
  split; [exact Hkw|].
  intros Hn. apply Hclean; [|right; eauto].
  split; [|split; [lia | by left]].
  destruct (decide (n = 0%Z)) as [-> | Hne]; [left; lia|].
  right. unfold int64. lia.
Qed.

(** The loop when the label is redrawn at every iteration: [kw0] is the
    caller's dictionary, [kw] the current one, [y] its current label. *)
Lemma sample_loop_randomized self f n steps (kw0 : gmap string KwVal) :
  forall (kw : gmap string KwVal) y img out st,
  sample_fn self = Some f ->
  num_classes (model self) = Some n -> (0 < n < 2 ^ 63)%Z ->
  Forall int64 steps ->
  kw !! "y" = Some y ->
  (forall res, <["y" := res]> kw = <["y" := res]> kw0) ->
  exists final w evs,
    sample_loop self true steps kw img out st = (Ok final, mkState w (trace st ++ evs))
    /\ length evs = 2 * length steps
    /\ forall k, k < length steps ->
         exists like res c,
           evs !! (2 * k) = Some (EvRandint (Some n) like res)
           /\ (exists w, res = fst (randint (Some n) like (device self) w))
           /\ evs !! (2 * k + 1) = Some (EvStep c)
           /\ call_model_kwargs c = <["y" := res]> kw0
           /\ match k with
              | 0 => like = y
              | Datatypes.S k' => exists hi l, evs !! (2 * k') = Some (EvRandint hi l like)
              end.
Proof.
  intros kw y img out st Hf Hn Hrange. revert kw y img out st.
  assert (Hok : in_int64 n && (0 <? n)%Z = true).
  { apply andb_true_iff. split; [apply in_int64_spec; unfold int64; lia | apply Z.ltb_lt; lia]. }
  induction steps as [|i steps IH]; intros kw y img out st Hint Hy Hkw.
  - exists img, (world st), []. cbn [sample_loop]. unfold ret. rewrite app_nil_r.
    destruct st. split; [reflexivity|]. split; [reflexivity|]. cbn. lia.
  - apply Forall_cons in Hint as [Hi Hint].
    rewrite sample_loop_cons. unfold redraw. cbv beta iota. rewrite Hy, Hn, Hok.
    destruct (randint (Some n) y (device self) (world st)) as [y' w1] eqn:Hdraw.
    cbv zeta. rewrite (forallb_in_int64_repeat i _ Hi), Hf.
    destruct (run_step _ _ _ _ _ _ _ w1) as [o w'].
    match goal with |- context [mkState w' (trace st ++ [?e1] ++ [EvStep ?c])] =>
      destruct (IH (<["y" := y']> kw) y' (out_sample o) (Some o)
                  (mkState w' (trace st ++ [e1] ++ [EvStep c])) Hint)
        as (final & w & evs & Hrun & Hlen & Hev);
        [apply lookup_insert_eq
        | intros res; rewrite insert_insert_eq; apply Hkw
        | exists final, w, (e1 :: EvStep c :: evs) ]
    end.
    cbn [trace] in Hrun. rewrite <- !app_assoc in Hrun. cbn [app] in Hrun.
    split; [exact Hrun|]. split; [cbn [length]; lia|].
    intros [|k] Hk.
    + eexists y, y', _. cbn. split; [reflexivity|].
      split; [exists (world st); by rewrite Hdraw|]. split; [reflexivity|].
      split; [apply Hkw | reflexivity].
    + cbn [length] in Hk.
      destruct (Hev k ltac:(lia)) as (like & res & c & Hd & Hgen & Hs & Hc & Hchain).
      exists like, res, c.
      replace (2 * Datatypes.S k) with (Datatypes.S (Datatypes.S (2 * k))) by lia.
      replace (Datatypes.S (Datatypes.S (2 * k)) + 1)
        with (Datatypes.S (Datatypes.S (2 * k + 1))) by lia.
      split; [exact Hd|]. split; [exact Hgen|]. split; [exact Hs|]. split; [exact Hc|].
      destruct k as [|k'].
      * subst like. eexists _, _. reflexivity.
      * destruct Hchain as (hi & l & Hprev). exists hi, l.
        replace (2 * Datatypes.S k') with (Datatypes.S (Datatypes.S (2 * k'))) by lia.
        exact Hprev.
Qed.

(** X11.  With [randomize_class] set, a "y" among the [model_kwargs] and a
    class-conditional network ([num_classes] a positive int64), every
    iteration of a run in range first draws a new label with
    [torch.randint] (bounded by the network's [num_classes], shaped like
    the label it replaces: the caller's at the first iteration, the previous
    draw afterwards) and then calls the one-step sampler with the caller's
    [model_kwargs] in which only "y" is replaced, by the label just
    drawn. *)
Theorem sample_redraws_label_each_step
    self f img prompts (S N n : Z) (kw : gmap string KwVal) y verbose q noise st :
  sample_fn self = Some f ->
  kw !! "y" = Some y ->
  num_classes (model self) = Some n ->
  (0 < n < 2 ^ 63)%Z ->
  steps_in_range S N ->
  (match q with None => S | Some q => q end < 2 ^ 64)%Z ->
  exists final st' pre evs,
    sample self img prompts S N kw true verbose q noise st = (Ok final, st')
    /\ trace st' = trace st ++ pre ++ evs
    /\ randint_calls pre = [] /\ step_calls pre = []
    /\ length evs = 2 * Z.to_nat N
    /\ forall k, k < Z.to_nat N ->
         exists like res c,
           evs !! (2 * k) = Some (EvRandint (Some n) like res)
           /\ (exists w, res = fst (randint (Some n) like (device self) w))
           /\ evs !! (2 * k + 1) = Some (EvStep c)
           /\ call_model_kwargs c = <["y" := res]> kw
           /\ match k with
              | 0 => like = y
              | Datatypes.S k' => exists hi l, evs !! (2 * k') = Some (EvRandint hi l like)
              end.
Proof.
  intros Hf Hy Hn Hrange HS Hlevel.
  rewrite sample_prologue. cbv zeta.
  pose proof (prologue_spec self img prompts (match q with None => S | Some q => q end)
                noise (world st)) as Hps.
  assert (Hret : exists start, snd (fst (prologue self img prompts
                   (match q with None => S | Some q => q end) noise (world st))) = Ok start).
  { unfold prologue. destruct (0 <? _)%Z; [|eauto].
    apply Z.ltb_lt in Hlevel. rewrite Hlevel. destruct (q_sample _ _ _ _ _). eauto. }
  destruct (prologue _ _ _ _ _ _) as [[pre r0] w0]. cbn [fst snd] in Hret.
  destruct Hret as [start ->]. destruct Hps as (rest & _ & Hsc & Hri & _).
  destruct (sample_loop_randomized self f n (py_range (S - 1) (S - N - 1) (-1)) kw kw y
              start None (mkState w0 (trace st ++ pre)) Hf Hn Hrange
              (py_range_down_int64 S N HS) Hy ltac:(reflexivity))
    as (final & w & evs & Hrun & Hlen & Hev).
  rewrite py_range_down_length in Hlen, Hev.
  rewrite Hrun. cbn [trace]. rewrite <- app_assoc.
  eexists final, _, pre, evs. split; [reflexivity|]. split; [reflexivity|].
  split; [exact Hri|]. split; [exact Hsc|]. split; [exact Hlen | exact Hev].
Qed.

(** X12.  When forward noising and the one-step sampler keep the shape of
    the image they are given, [sample] keeps it for every [start_step] and
    [n_steps]: every sampler call receives an image of the caller's shape
    and a timestep tensor with one entry per image of the batch, and an
    image that is returned has the caller's shape.  With a sampler bound
    the run returns whenever it is in range. *)
Theorem sample_keeps_shape self f img prompts (S N : Z) kw rc verbose q noise st :
  sample_fn self = Some f ->
  (forall d x t n w, shape (fst (q_sample d x t n w)) = shape x) ->
  (forall d p m x t c kw w, shape (out_sample (fst (run_step d p m x t c kw w))) = shape x) ->
  exists r st' evs,
    sample self img prompts S N kw rc verbose q noise st = (r, st')
    /\ trace st' = trace st ++ evs
    /\ Forall (fun c => shape (call_x c) = shape img
                        /\ length (call_t c) = sN (shape img)) (step_calls evs)
    /\ (forall final, r = Ok final -> shape final = shape img)
    /\ (in_range self rc kw S N (match q with None => S | Some q => q end) ->
        exists final, r = Ok final).
Proof.
  intros Hf Hq Hstep.
  destruct (sample_cases self img prompts S N kw rc verbose q noise st)
    as (r & w & pre & r0 & w0 & start & evs & Hpro & Hstart & Hrun & _ & Hch & Hok & Hclean).
  assert (Hs : shape start = shape img).
  { destruct Hstart as [-> | ->]; [|reflexivity].
    exact (prologue_shape _ _ _ _ _ _ _ _ _ Hq Hpro). }
  pose proof (prologue_spec self img prompts (match q with None => S | Some q => q end)
                noise (world st)) as Hps.
  rewrite Hpro in Hps. destruct Hps as (rest & _ & Hsc & _).
  eexists r, _, (pre ++ evs). split; [exact Hrun|]. split; [reflexivity|].
  rewrite step_calls_app, Hsc, app_nil_l. split; [|split].
  - rewrite <- Hs. eapply Forall_impl; [exact (chained_shapes _ _ _ _ _ Hstep Hch)|].
    cbn. intros c (Hx & Ht & _). auto.
  - intros final Hfinal. destruct (Hok final Hfinal) as (_ & _ & Hlast).
    rewrite <- Hs. exact (chained_final_shape _ _ _ _ _ _ Hstep Hch Hlast).
  - intros HR. apply Hclean; [exact HR | right; eauto].
Qed.

(** X13.  An object constructed with one of the three sampler kinds and a
    known checkpoint runs every [sample] call in range to the end, with
    [n_steps] calls of the one-step sampler (none for [n_steps <= 0]), and
    every one-step-sampler call of any run, returning or not, is made with
    the algorithm and the parameter chosen at construction: [p_sample];
    [ddim_sample] with [eta=ddim_eta]; [plms_sample] with
    [order=plms_order]; always with [clip_denoised=False], on the object's
    network, with the object's guidance strategy as [cond_fn]. *)
Theorem constructed_object_samples_as_configured
    grad_modules sampler timesteps model_checkpoint dev ddim_eta plms_order fast st :
  sampler = "p" \/ sampler = "ddim" \/ sampler = "plms" ->
  model_checkpoint = "uncondImageNet512" \/ model_checkpoint = "uncondImageNet256" ->
  exists self st1,
    init grad_modules sampler timesteps model_checkpoint dev ddim_eta plms_order fast st
    = (Ok self, st1)
    /\ forall img prompts S N kw rc verbose q noise st2,
       exists r st3 evs,
         sample self img prompts S N kw rc verbose q noise st2 = (r, st3)
         /\ trace st3 = trace st2 ++ evs
         /\ (in_range self rc kw S N (match q with None => S | Some q => q end) ->
             (exists final, r = Ok final) /\ length (step_calls evs) = Z.to_nat N)
         /\ forall c, c ∈ step_calls evs ->
              kw_clip_denoised (call_fn c) = Some false
              /\ call_model c = model self
              /\ call_cond_fn c = conditioning self
              /\ (sampler = "p" ->
                  func (call_fn c) = p_sample
                  /\ kw_eta (call_fn c) = None /\ kw_order (call_fn c) = None)
              /\ (sampler = "ddim" ->
                  func (call_fn c) = ddim_sample
                  /\ kw_eta (call_fn c) = Some ddim_eta /\ kw_order (call_fn c) = None)
              /\ (sampler = "plms" ->
                  func (call_fn c) = plms_sample
                  /\ kw_eta (call_fn c) = None /\ kw_order (call_fn c) = Some plms_order).
Proof.
  intros Hs Hck.
  destruct (init_binds_sampler grad_modules sampler timesteps model_checkpoint dev
              ddim_eta plms_order fast st Hs Hck) as (self & st1 & Hinit & Hfn).
  exists self, st1. split; [exact Hinit|].
  intros img prompts S N kw rc verbose q noise st2.
  destruct (sample_cases self img prompts S N kw rc verbose q noise st2)
    as (r & w & pre & r0 & w0 & start & evs & Hpro & _ & Hrun & _ & Hch & Hok & Hclean).
  pose proof (prologue_spec self img prompts (match q with None => S | Some q => q end)
                noise (world st2)) as Hps.
  rewrite Hpro in Hps. destruct Hps as (rest & _ & Hsc & _).
  eexists r, _, (pre ++ evs). split; [exact Hrun|]. split; [reflexivity|].
  rewrite step_calls_app, Hsc, app_nil_l. split.
  - intros HR. destruct (Hclean HR ltac:(right; eauto)) as [final ->].
    destruct (Hok final eq_refl) as (_ & Hlen & _). eauto.
  - intros c Hc. apply list_elem_of_lookup in Hc as [k Hk].
    destruct (chained_lookup _ _ _ _ _ k c Hch Hk)
      as (_ & f' & _ & Hf' & _ & Hcf & _ & Hm & Hcond & _).
    rewrite Hfn in Hf'. injection Hf' as <-.
    rewrite Hcf.
    destruct Hs as [-> | [-> | ->]]; cbn;
      (split; [reflexivity|]); (split; [exact Hm|]); (split; [exact Hcond|]);
      repeat split; intros; discriminate.
Qed.

(** X14.  With an empty schedule ([len(use_timesteps) = 0]) [forward]
    returns the tensor it drew, untouched: it registers the prompts and
    neither noises nor samples.  No sampler needs to be bound for this. *)
Theorem forward_empty_schedule self shp prompts kw st :
  size (use_timesteps (diffusion self)) = 0 ->
  exists img0 w0,
    randn shp (device self) (world st) = (img0, w0)
    /\ forward self shp prompts kw st
       = (Ok img0,
          mkState (set_targets (conditioning self) prompts w0)
            (trace st ++ [EvRandn shp img0; EvSetTargets (conditioning self) prompts])).
Proof.
  intros Hsize.
  destruct (randn shp (device self) (world st)) as [img0 w0] eqn:Hr.
  exists img0, w0. split; [reflexivity|].
  unfold forward, bind at 1, call at 1. rewrite Hr, Hsize.
  change (Z.of_nat 0) with 0%Z. rewrite sample_prologue. cbv zeta.
  unfold prologue. change (0 <? 0)%Z with false. cbv iota. cbn [world trace].
  rewrite (py_range_down_nil 0 0) by lia. cbn [sample_loop]. unfold ret.
  by rewrite <- app_assoc.
Qed.

(** The first iteration of a run of at least one step. *)
Lemma sample_first_step self img prompts (S N : Z) kw rc verbose q noise st :
  (1 <= N)%Z ->
  let level := match q with None => S | Some q => q end in
  exists steps,
    sample self img prompts S N kw rc verbose q noise st
    = let '(pre, r, w) := prologue self img prompts level noise (world st) in
      match r with
      | Ok start =>
          sample_loop self rc ((S - 1)%Z :: steps) kw start None (mkState w (trace st ++ pre))
      | Raise e => (Raise e, mkState w (trace st ++ pre))
      end.
Proof.
  intros HN level. destruct (py_range_down_cons S N HN) as [steps Hsteps].
  exists steps. rewrite sample_prologue. fold level. cbv zeta. by rewrite Hsteps.
Qed.

(** X22.  On an object with no sampler bound, no run of [sample] ever
    calls a one-step sampler; a run in range of at least one step raises
    at the read of [self.sample_fn] in its first iteration. *)
Theorem unbound_sampler_raises_at_first_step
    self img prompts (S N : Z) kw rc verbose q noise st :
  sample_fn self = None ->
  exists r st' evs,
    sample self img prompts S N kw rc verbose q noise st = (r, st')
    /\ trace st' = trace st ++ evs
    /\ step_calls evs = []
    /\ ((1 <= N)%Z ->
        in_range self rc kw S N (match q with None => S | Some q => q end) ->
        r = Raise (AttributeError "sample_fn")).
Proof.
  intros Hf.
  destruct (sample_cases self img prompts S N kw rc verbose q noise st)
    as (r & w & pre & r0 & w0 & start & evs & Hpro & _ & Hrun & _ & Hch & _).
  pose proof (prologue_spec self img prompts (match q with None => S | Some q => q end)
                noise (world st)) as Hps.
  rewrite Hpro in Hps. destruct Hps as (rest & _ & Hsc & _).
  eexists r, _, (pre ++ evs). split; [exact Hrun|]. split; [reflexivity|].
  split; [by rewrite step_calls_app, Hsc, (chained_unbound _ _ _ _ _ Hf Hch)|].
  intros HN (HS & Hlevel & HL).
  destruct (sample_first_step self img prompts S N kw rc verbose q noise st HN)
    as [steps Hfirst].
  cbv zeta in Hfirst. rewrite Hpro in Hfirst.
  assert (Hr0 : exists s, r0 = Ok s).
  { revert Hpro. unfold prologue. destruct (0 <? _)%Z; [|intros [= _ <- _]; eauto].
    apply Z.ltb_lt in Hlevel. rewrite Hlevel. destruct (q_sample _ _ _ _ _).
    intros [= _ <- _]. eauto. }
  destruct Hr0 as [s ->].
  rewrite sample_loop_cons in Hfirst.
  pose proof (redraw_spec self rc kw w0) as Hre. cbn [world] in Hfirst.
  destruct (redraw self rc kw w0) as [[pre' r1] w1]. destruct Hre as (_ & _ & Hlab).
  destruct (Hlab HL) as (kw' & -> & _). cbv zeta in Hfirst.
  assert (Hi : int64 (S - 1)) by (destruct HS as [HN' | (Hi & _)]; [lia | exact Hi]).
  rewrite (forallb_in_int64_repeat _ _ Hi), Hf in Hfirst.
  rewrite Hfirst in Hrun. by injection Hrun as <- _.
Qed.

(** X23.  With [randomize_class] set and a "y" among the [model_kwargs],
    on a network that has no [num_classes] (it is [None]) a run of at least
    one and fewer than 2^63 steps raises [torch.randint]'s [TypeError] in its first iteration: no
    label has been drawn and no one-step sampler has been called. *)
Theorem redraw_without_classes_raises
    self img prompts (S N : Z) (kw : gmap string KwVal) y verbose q noise st :
  kw !! "y" = Some y ->
  num_classes (model self) = None ->
  (1 <= N < 2 ^ 63)%Z ->
  (match q with None => S | Some q => q end < 2 ^ 64)%Z ->
  exists st' evs,
    sample self img prompts S N kw true verbose q noise st
    = (Raise (TypeError "randint"), st')
    /\ trace st' = trace st ++ evs
    /\ randint_calls evs = []
    /\ step_calls evs = [].
Proof.
  intros Hy Hn [HN _] Hlevel.
  destruct (sample_first_step self img prompts S N kw true verbose q noise st HN)
    as [steps Hfirst].
  cbv zeta in Hfirst.
  pose proof (prologue_spec self img prompts (match q with None => S | Some q => q end)
                noise (world st)) as Hps.
  assert (Hret : exists start, snd (fst (prologue self img prompts
                   (match q with None => S | Some q => q end) noise (world st))) = Ok start).
  { unfold prologue. destruct (0 <? _)%Z; [|eauto].
    apply Z.ltb_lt in Hlevel. rewrite Hlevel. destruct (q_sample _ _ _ _ _). eauto. }
  destruct (prologue _ _ _ _ _ _) as [[pre r0] w0]. cbn [fst snd] in Hret.
  destruct Hret as [start ->]. destruct Hps as (rest & _ & Hsc & Hri & _).
  rewrite sample_loop_cons in Hfirst. unfold redraw in Hfirst.
  cbv beta iota in Hfirst. cbn [world trace] in Hfirst. rewrite Hy, Hn in Hfirst.
  rewrite app_nil_r in Hfirst.
  eexists _, pre. split; [exact Hfirst|]. split; [reflexivity|]. split; assumption.
Qed.

(** X24.  When the first timestep, [start_step - 1], does not fit int64,
    a run of at least one and fewer than 2^63 steps on a batch that is not
    empty raises when it
    builds the timestep tensor of its first iteration, before
    [self.sample_fn] is read: no one-step sampler is called, bound or
    not. *)
Theorem timestep_out_of_range_raises
    self img prompts (S N : Z) kw rc verbose q noise st :
  (1 <= N < 2 ^ 63)%Z ->
  ~ int64 (S - 1) ->
  0 < sN (shape img) ->
  (forall d x t n w, shape (fst (q_sample d x t n w)) = shape x) ->
  (match q with None => S | Some q => q end < 2 ^ 64)%Z ->
  labels_in_range self rc kw ->
  exists st' evs,
    sample self img prompts S N kw rc verbose q noise st
    = (Raise (RangeError "tensor"), st')
    /\ trace st' = trace st ++ evs
    /\ step_calls evs = [].
Proof.
  intros [HN _] HS Hbatch Hq Hlevel HL.
  destruct (sample_first_step self img prompts S N kw rc verbose q noise st HN)
    as [steps Hfirst].
  cbv zeta in Hfirst.
  pose proof (prologue_spec self img prompts (match q with None => S | Some q => q end)
                noise (world st)) as Hps.
  assert (Hret : exists start, snd (fst (prologue self img prompts
                   (match q with None => S | Some q => q end) noise (world st))) = Ok start).
  { unfold prologue. destruct (0 <? _)%Z; [|eauto].
    apply Z.ltb_lt in Hlevel. rewrite Hlevel. destruct (q_sample _ _ _ _ _). eauto. }
  destruct (prologue _ _ _ _ _ _) as [[pre r0] w0] eqn:Hpro. cbn [fst snd] in Hret.
  destruct Hret as [start ->]. destruct Hps as (rest & _ & Hsc & _).
  pose proof (prologue_shape _ _ _ _ _ _ _ _ _ Hq Hpro) as Hshape.
  rewrite sample_loop_cons in Hfirst. cbn [world trace] in Hfirst.
  pose proof (redraw_spec self rc kw w0) as Hre.
  destruct (redraw self rc kw w0) as [[pre' r1] w1]. destruct Hre as (_ & Hsc' & Hlab).
  destruct (Hlab HL) as (kw' & -> & _). cbv zeta in Hfirst.
  assert (Hfit : forallb in_int64 (repeat (S - 1)%Z (sN (shape start))) = false).
  { rewrite Hshape. destruct (sN (shape img)) as [|b]; [lia|]. cbn [repeat forallb].
    destruct (in_int64 (S - 1)) eqn:Hin; [|reflexivity].
    apply in_int64_spec in Hin. contradiction. }
  rewrite Hfit in Hfirst.
  eexists _, (pre ++ pre'). split; [exact Hfirst|]. cbn [trace].
  split; [by rewrite app_assoc|]. by rewrite step_calls_app, Hsc, Hsc'.
Qed.

End Facts.

(** *** Evaluated *)

#[local] Existing Instance toy_types.
#[local] Existing Instance toy_ops.


Lemma explicit_noise_level_witness :
  exists noised r st' rest,
    toy_sample toy_p 10 2 (Some 4%Z) toy_state = (r, st')
    /\ trace st' = trace toy_state
                   ++ @EvSetTargets toy_types tt "a prompt"
                      :: EvQSample toy_image [3%Z] None noised :: rest.
Proof.
  destruct (@explicit_noise_level toy_types toy_ops (toy_self (Some toy_p)) toy_image
              "a prompt" 10 2 4 ∅ false true None toy_state)
    as (_ & noised & w1 & r & st' & rest & _ & Hrun & Htr & _); [lia|].
  exists noised, r, st', rest. auto.
Defined.

Lemma nonpositive_noise_level_skips_noising_witness :
  exists r st' evs,
    toy_sample toy_p 10 2 (Some (-3)%Z) toy_state = (r, st')
    /\ trace st' = trace toy_state ++ evs
    /\ q_sample_calls evs = [].
Proof.
  destruct (@nonpositive_noise_level_skips_noising toy_types toy_ops
              (toy_self (Some toy_p)) toy_image "a prompt" 10 2 ∅ false true
              (Some (-3)%Z) None toy_state)
    as (r & st' & evs & Hrun & Htr & Hq & _); [lia|].
  exists r, st', evs. auto.
Defined.

Lemma sample_passes_model_kwargs_witness :
  exists final st' evs,
    @sample toy_types toy_ops (toy_self (Some toy_ddim)) toy_image "a prompt" 10 3
      labelled false true None None toy_state = (Ok final, st')
    /\ trace st' = trace toy_state ++ evs
    /\ Forall (fun c => call_model_kwargs c = labelled) (step_calls evs).
Proof.
  destruct (@sample_passes_model_kwargs toy_types toy_ops (toy_self (Some toy_ddim))
              toy_ddim toy_image "a prompt" 10 3 labelled false true None None toy_state)
    as (r & st' & evs & Hrun & Htr & _ & Hkw & Hret); [reflexivity | left; reflexivity |].
  destruct Hret as [final ->];
    [split; [right; unfold int64; lia | split; [lia | left; reflexivity]]|].
  exists final, st', evs. auto.
Defined.

Lemma sample_redraws_label_each_step_witness :
  exists final st' pre evs,
    @sample toy_types toy_ops (toy_class_self (Some toy_ddim)) toy_image "a prompt" 10 3
      labelled true true None None toy_state = (Ok final, st')
    /\ trace st' = trace toy_state ++ pre ++ evs
    /\ length evs = 6.
Proof.
  destruct (@sample_redraws_label_each_step toy_types toy_ops
              (toy_class_self (Some toy_ddim)) toy_ddim toy_image "a prompt" 10 3 1000
              labelled 7%Z true None None toy_state)
    as (final & st' & pre & evs & Hrun & Htr & _ & _ & Hlen & _);
    [reflexivity | reflexivity | reflexivity | lia | right; unfold int64; lia | lia |].
  exists final, st', pre, evs. auto.
Defined.

Lemma sample_keeps_shape_witness :
  exists final st',
    toy_sample toy_plms 7 9 None toy_state = (Ok final, st')
    /\ shape final = mkShape 1 3 64 64.
Proof.
  destruct (@sample_keeps_shape toy_types toy_ops (toy_self (Some toy_plms)) toy_plms
              toy_image "a prompt" 7 9 ∅ false true None None toy_state)
    as (r & st' & evs & Hrun & _ & _ & Hshape & Hret);
    [reflexivity | reflexivity | reflexivity |].
  destruct Hret as [final ->];
    [split; [right; unfold int64; lia | split; [lia | left; reflexivity]]|].
  exists final, st'. split; [exact Hrun | exact (Hshape final eq_refl)].
Defined.

Lemma constructed_object_samples_as_configured_witness :
  exists self st1 final st3 evs,
    toy_init "plms" toy_state = (Ok self, st1)
    /\ @sample toy_types toy_ops self toy_image "a prompt" 5 3 ∅ false true None None
         toy_state = (Ok final, st3)
    /\ trace st3 = trace toy_state ++ evs
    /\ length (step_calls evs) = 3
    /\ forall c, c ∈ step_calls evs ->
         func (call_fn c) = plms_sample /\ kw_order (call_fn c) = Some 2%Z.
Proof.
  destruct (@constructed_object_samples_as_configured toy_types toy_ops tt "plms" 100
              "uncondImageNet512" "cpu" 0%Z 2%Z true toy_state)
    as (self & st1 & Hinit & Hsample); [right; right; reflexivity | left; reflexivity |].
  destruct (Hsample toy_image "a prompt" 5%Z 3%Z ∅ false true None None toy_state)
    as (r & st3 & evs & Hrun & Htr & Hret & Hcalls).
  destruct Hret as [[final ->] Hlen];
    [split; [right; unfold int64; lia | split; [lia | left; reflexivity]]|].
  exists self, st1, final, st3, evs.
  split; [exact Hinit|]. split; [exact Hrun|]. split; [exact Htr|]. split; [exact Hlen|].
  intros c Hc. destruct (Hcalls c Hc) as (_ & _ & _ & _ & _ & Hplms).
  destruct (Hplms eq_refl) as (Hfn & _ & Horder). auto.
Defined.

Lemma forward_empty_schedule_witness :
  exists img0 st',
    @forward toy_types toy_ops idle_self (mkShape 1 3 64 64) "a prompt" ∅ toy_state
    = (Ok img0, st').
Proof.
  destruct (@forward_empty_schedule toy_types toy_ops idle_self (mkShape 1 3 64 64)
              "a prompt" ∅ toy_state) as (img0 & w0 & _ & Hrun); [reflexivity|].
  eexists img0, _. exact Hrun.
Defined.

Lemma forward_passes_model_kwargs_witness :
  exists img0 final st' evs,
    @forward toy_types toy_ops (toy_self (Some toy_p)) (mkShape 1 3 64 64) "a prompt"
      labelled toy_state = (Ok final, st')
    /\ trace st' = trace toy_state ++ EvRandn (mkShape 1 3 64 64) img0 :: evs
    /\ Forall (fun c => call_model_kwargs c = labelled) (step_calls evs).
Proof.
  destruct (@forward_passes_model_kwargs toy_types toy_ops (toy_self (Some toy_p)) toy_p
              (mkShape 1 3 64 64) "a prompt" labelled toy_state)
    as (img0 & r & st' & evs & Hrun & Htr & _ & _ & Hkw & Hret); [reflexivity|].
  destruct Hret as [final ->]; [vm_compute; reflexivity|].
  exists img0, final, st', evs. auto.
Defined.

Lemma unbound_sampler_raises_at_first_step_witness :
  exists st',
    @sample toy_types toy_ops (toy_self None) toy_image "a prompt" 10 3 ∅ false true
      None None toy_state = (Raise (AttributeError "sample_fn"), st').
Proof.
  destruct (@unbound_sampler_raises_at_first_step toy_types toy_ops (toy_self None)
              toy_image "a prompt" 10 3 ∅ false true None None toy_state)
    as (r & st' & evs & Hrun & _ & _ & Hr); [reflexivity|].
  exists st'. rewrite Hrun, Hr; [reflexivity | lia |].
  split; [right; unfold int64; lia | split; [lia | left; reflexivity]].
Defined.

Lemma redraw_without_classes_raises_witness :
  exists st',
    @sample toy_types toy_ops (toy_self (Some toy_p)) toy_image "a prompt" 10 3 labelled
      true true None None toy_state = (Raise (TypeError "randint"), st').
Proof.
  destruct (@redraw_without_classes_raises toy_types toy_ops (toy_self (Some toy_p))
              toy_image "a prompt" 10 3 labelled 7%Z true None None toy_state)
    as (st' & evs & Hrun & _); [reflexivity | reflexivity | lia | lia |].
  exists st'. exact Hrun.
Defined.

Lemma timestep_out_of_range_raises_witness :
  exists st',
    toy_sample toy_p (2 ^ 63 + 1) 1 (Some 0%Z) toy_state
    = (Raise (RangeError "tensor"), st').
Proof.
  destruct (@timestep_out_of_range_raises toy_types toy_ops (toy_self (Some toy_p))
              toy_image "a prompt" (2 ^ 63 + 1) 1 ∅ false true (Some 0%Z) None toy_state)
    as (st' & evs & Hrun & _);
    [lia | unfold int64; lia | cbn; lia | reflexivity | lia | left; reflexivity |].
  exists st'. exact Hrun.
Defined.

(** The events of a run of two steps that redraws the label on a
    class-conditional network: the calls alternate, and each draw is shaped
    like the label before it.  On a network without classes the same run
    raises before anything is drawn. *)
Example toy_redraw_trace :
  randint_calls (trace (snd (@sample toy_types cached_ops (toy_class_self (Some toy_p))
                               toy_image "a prompt" 2 2 labelled true true (Some 0%Z) None
                               toy_state)))
  = [(Some 1000%Z, 7%Z, 8%Z); (Some 1000%Z, 8%Z, 9%Z)].
Proof. reflexivity. Qed.

Example toy_redraw_no_classes :
  @sample toy_types cached_ops (toy_self (Some toy_p)) toy_image "a prompt" 2 2 labelled
    true true (Some 0%Z) None toy_state
  = (Raise (TypeError "randint"),
     @mkState toy_types 0 [@EvSetTargets toy_types tt "a prompt"]).
Proof. reflexivity. Qed.

End SamplingFacts.

(** ** More about the secondary denoiser and the tensor helpers *)

Module DenoiserMore.
Import Schedule Denoiser DenoiserFacts.

(** X15.  In whatever the forward pass returns, [(pred, eps)] is [(x, v)]
    turned by the angle t*pi/2: at every index the image is recovered as
    x = pred*cos(t*pi/2) + eps*sin(t*pi/2), and
    pred^2 + eps^2 = x^2 + v^2. *)
Theorem forward_is_a_rotation self x t o :
  forward self x t = Some o ->
  forall b ch i j, in_shape (shape x) b ch i j ->
    let alpha := cos (elt1 t b * PI / 2) in
    let sigma := sin (elt1 t b * PI / 2) in
    elt x b ch i j = (elt (pred o) b ch i j * alpha + elt (eps o) b ch i j * sigma)%R
    /\ (elt (pred o) b ch i j * elt (pred o) b ch i j
        + elt (eps o) b ch i j * elt (eps o) b ch i j
        = elt x b ch i j * elt x b ch i j + elt (v o) b ch i j * elt (v o) b ch i j)%R.
Proof.
  intros Ho b ch i j Hin alpha sigma.
  pose proof (forward_returns_inv self x t o Ho) as Hsup.
  apply supported_shape in Hsup as (h & w & Hs & Hh & Hw).
  destruct (forward_returns self x t (length t) h w Hs Hh Hw eq_refl)
    as (o1 & xcat & Ho1 & _ & _ & _ & _ & Hrel).
  rewrite Ho in Ho1. injection Ho1 as <-.
  destruct (Hrel b ch i j Hin) as [Hp He]. fold alpha sigma in Hp, He.
  pose proof (sin2_cos2 (elt1 t b * PI / 2)) as H1. unfold Rsqr in H1.
  fold alpha sigma in H1. rewrite Hp, He.
  set (X := elt x b ch i j). set (V := elt (v o) b ch i j). split.
  - transitivity (X * (sigma * sigma + alpha * alpha))%R; [rewrite H1; ring | ring].
  - transitivity ((X * X + V * V) * (sigma * sigma + alpha * alpha))%R;
      [ring | rewrite H1; ring].
Qed.

Lemma forward_is_a_rotation_witness :
  exists o, forward zero_model (zeros (mkShape 1 3 32 32)) [1%R] = Some o
            /\ elt (zeros (mkShape 1 3 32 32)) 0 2 5 7
               = (elt (pred o) 0 2 5 7 * cos (1 * PI / 2)
                  + elt (eps o) 0 2 5 7 * sin (1 * PI / 2))%R.
Proof.
  destruct (forward_returns zero_model (zeros (mkShape 1 3 32 32)) [1%R] 1 1 1)
    as (o & _ & Ho & _); [reflexivity | lia | lia | reflexivity |].
  exists o. split; [exact Ho|].
  apply (forward_is_a_rotation zero_model (zeros (mkShape 1 3 32 32)) [1%R] o Ho 0 2 5 7).
  cbv [in_shape zeros shape sN sC sH sW]. lia.
Defined.

(** The velocity of an output is the value of the network on [net_input]. *)
Lemma forward_v self x t o :
  forward self x t = Some o ->
  exists xin, net_input self x t = Some xin /\ net self xin = Some (v o).
Proof.
  unfold forward, net_input.
  destruct (fourier_forward _ _) as [emb|]; [|discriminate]. cbn [mbind option_bind].
  destruct (cat1 _ _) as [xin|]; [|discriminate]. cbn [mbind option_bind].
  destruct (net self xin) as [v0|] eqn:Hnet; [|discriminate]. cbn [mbind option_bind].
  cbn [t_to_alpha_sigma].
  repeat match goal with
         | |- context [mbind _ ?e] =>
             destruct e; [|discriminate]; cbn [mbind option_bind]
         end.
  intros [= <-]. exists xin. split; [reflexivity | exact Hnet].
Qed.

(** X16.  The velocity of an output is the value of the convolution stack
    on the image with sixteen timestep planes appended to its channels:
    channels 0 to 2 are the image, channel 3 + j is cos(2*pi*t*weight_j)
    and channel 11 + j is sin(2*pi*t*weight_j) for j < 8, with [t] the
    timestep of the image's own batch entry; each of these planes is
    constant. *)
Theorem forward_embeds_timestep self x t o :
  forward self x t = Some o ->
  exists xin,
    v o = mkTensor (shape x) (net_values self xin)
    /\ shape xin = mkShape (sN (shape x)) 19 (sH (shape x)) (sW (shape x))
    /\ forall b h w,
         (forall ch, ch < 3 -> elt xin b ch h w = elt x b ch h w)
         /\ (forall j, j < 8 ->
               elt xin b (3 + j) h w = cos (2 * PI * elt1 t b * embed_weight self j 0)
               /\ elt xin b (11 + j) h w = sin (2 * PI * elt1 t b * embed_weight self j 0)).
Proof.
  intros Ho.
  pose proof (forward_returns_inv self x t o Ho) as (Hc & Hn & h0 & w0 & Hh & Hw & HH & HW).
  destruct (forward_v self x t o Ho) as (xin & Hin & Hnet).
  exists xin.
  unfold net_input, fourier_forward, matmul in Hin.
  cbn [cols rows scale2 unsqueeze1 transpose weight timestep_embed in_features
       out_features Nat.eqb mbind option_bind] in Hin.
  unfold cat_last in Hin. cbn [rows cols map2d] in Hin. rewrite Nat.eqb_refl in Hin.
  cbn [mbind option_bind] in Hin.
  unfold cat1 in Hin. cbn [shape expand_to_planes rows cols sN sC sH sW] in Hin.
  rewrite <- Hn, !Nat.eqb_refl in Hin. cbn [andb] in Hin. injection Hin as <-.
  unfold net in Hnet. cbn [shape] in Hnet.
  destruct (layer_shape net_layers _) as [s'|] eqn:Hs'; [|discriminate].
  apply net_layers_shape_inv in Hs' as (_ & -> & _). cbn [sN sC sH sW] in Hnet.
  injection Hnet as Hv. split.
  { rewrite <- Hv. f_equal. destruct (shape x); cbn in *. congruence. }
  cbn [shape elt]. rewrite Hc. split; [by rewrite Hn|].
  intros b h w. split.
  - intros ch Hch. destruct (Nat.ltb_spec ch 3); [reflexivity | lia].
  - intros j Hj.
    destruct (Nat.ltb_spec (3 + j) 3); [lia|].
    destruct (Nat.ltb_spec (11 + j) 3); [lia|].
    cbn [expand_to_planes elt elt2].
    replace (3 + j - 3) with j by lia. replace (11 + j - 3) with (8 + j) by lia.
    change (16 / 2) with 8.
    destruct (Nat.ltb_spec j 8); [|lia].
    destruct (Nat.ltb_spec (8 + j) 8); [lia|].
    replace (8 + j - 8) with j by lia.
    cbn [seq map fold_right elt2]. split; f_equal; ring.
Qed.

Lemma forward_embeds_timestep_witness :
  exists o xin,
    forward zero_model (zeros (mkShape 1 3 32 32)) [1%R] = Some o
    /\ v o = mkTensor (mkShape 1 3 32 32) (net_values zero_model xin)
    /\ elt xin 0 3 0 0 = cos (2 * PI * 1 * 0).
Proof.
  destruct (forward_returns zero_model (zeros (mkShape 1 3 32 32)) [1%R] 1 1 1)
    as (o & _ & Ho & _); [reflexivity | lia | lia | reflexivity |].
  destruct (forward_embeds_timestep zero_model (zeros (mkShape 1 3 32 32)) [1%R] o Ho)
    as (xin & Hv & _ & Hel).
  exists o, xin. split; [exact Ho|]. split; [exact Hv|].
  destruct (Hel 0 0 0) as [_ Hemb]. exact (proj1 (Hemb 0 ltac:(lia))).
Defined.

(** X17.  A [FourierFeatures] module that passed the assertion of its
    constructor has an even [out_features]; on an input of [in_features]
    columns its forward pass returns one row per input row and exactly
    [out_features] columns, column j of the first half being the cosine and
    column j of the second half the sine of the same angle
    sum_k 2*pi*input[i][k]*weight[j][k], so that each such pair lies on the
    unit circle; an input of any other width raises. *)
Theorem fourier_features_forward n_in n_out std drawn ff input :
  FourierFeatures_init n_in n_out std drawn = Some ff ->
  n_out mod 2 = 0
  /\ (cols input <> n_in -> fourier_forward ff input = None)
  /\ (cols input = n_in ->
      exists out,
        fourier_forward ff input = Some out
        /\ rows out = rows input /\ cols out = n_out
        /\ forall i j, j < n_out / 2 ->
             let f := fold_right Rplus 0%R
                        (map (fun k => (2 * PI * elt2 input i k * (drawn j k * std))%R)
                             (seq 0 n_in)) in
             elt2 out i j = cos f
             /\ elt2 out i (n_out / 2 + j) = sin f
             /\ (elt2 out i j * elt2 out i j
                 + elt2 out i (n_out / 2 + j) * elt2 out i (n_out / 2 + j) = 1)%R).
Proof.
  unfold FourierFeatures_init.
  destruct (Nat.eqb_spec (n_out mod 2) 0) as [Heven|]; [|discriminate].
  intros [= <-]. split; [exact Heven|].
  unfold fourier_forward, matmul.
  cbn [cols rows scale2 transpose weight in_features out_features]. split.
  - intros Hne. destruct (Nat.eqb_spec (cols input) n_in); [contradiction | reflexivity].
  - intros ->. rewrite Nat.eqb_refl. cbn [mbind option_bind].
    unfold cat_last. cbn [rows cols map2d]. rewrite Nat.eqb_refl.
    eexists. split; [reflexivity|]. cbn [rows cols elt2].
    split; [reflexivity|]. split.
    { pose proof (Nat.div_mod n_out 2 ltac:(lia)). lia. }
    intros i j Hj. cbv zeta.
    destruct (Nat.ltb_spec j (n_out / 2)); [|lia].
    destruct (Nat.ltb_spec (n_out / 2 + j) (n_out / 2)); [lia|].
    replace (n_out / 2 + j - n_out / 2) with j by lia.
    split; [reflexivity|]. split; [reflexivity|].
    cbn [elt2 map2d scale2 transpose weight weight_at in_features out_features].
    match goal with |- context [cos ?f] =>
      pose proof (sin2_cos2 f) as Hf; unfold Rsqr in Hf; lra
    end.
Qed.

Lemma fourier_features_forward_witness :
  exists ff out,
    FourierFeatures_init 1 16 1 (fun _ _ => 1%R) = Some ff
    /\ fourier_forward ff (unsqueeze1 [0%R; 1%R]) = Some out
    /\ rows out = 2 /\ cols out = 16.
Proof.
  pose proof (fourier_features_forward 1 16 1 (fun _ _ => 1%R)
                (mkFourier 1 16 (fun _ _ => (1 * 1)%R)) (unsqueeze1 [0%R; 1%R])
                ltac:(reflexivity)) as (_ & _ & Hfw).
  destruct (Hfw eq_refl) as (out & Hout & Hr & Hc & _).
  exists (mkFourier 1 16 (fun _ _ => (1 * 1)%R)), out.
  split; [reflexivity|]. split; [exact Hout|]. split; [exact Hr | exact Hc].
Defined.

End DenoiserMore.

(** ** The tensor helpers at any rank *)

Module HelpersFacts.
Import Helpers.

Lemma append_dims_ndim (x : Tensor) (n : nat) :
  ndim (append_dims x n) = Nat.max (ndim x) n.
Proof. unfold append_dims, ndim. cbn [dims]. rewrite length_app, repeat_length. lia. Qed.

(** X18.  [append_dims(x, n)] brings [x] to [max(x.ndim, n)] dimensions by
    appending dimensions of size 1, and leaves the sizes alone when
    [n <= x.ndim]; the elements are those of [x], whatever the index in the
    appended dimensions; appending twice is appending once to the larger
    count.  On a timestep batch and [n = 4] it is the [(len, 1, 1, 1)]
    tensor the forward pass of the secondary model multiplies by. *)
Theorem append_dims_spec (x : Tensor) (n : nat) :
  ndim (append_dims x n) = Nat.max (ndim x) n
  /\ (n <= ndim x -> dims (append_dims x n) = dims x)
  /\ (forall idx rest, length idx = ndim x ->
        at_ (append_dims x n) (idx ++ rest) = at_ x idx)
  /\ (forall m, dims (append_dims (append_dims x n) m)
                = dims (append_dims x (Nat.max n m)))
  /\ (forall (t : Tensor1),
        dims (append_dims (of_tensor1 t) 4) = shape_list (shape (Schedule.append_dims4 t))
        /\ forall b c h w,
             at_ (append_dims (of_tensor1 t) 4) [b; c; h; w]
             = elt (Schedule.append_dims4 t) b c h w).
Proof.
  unfold append_dims, ndim. cbn [dims at_].
  split; [rewrite length_app, repeat_length; lia|].
  split.
  { intros Hle. replace (n - length (dims x)) with 0 by lia. cbn. apply app_nil_r. }
  split.
  { intros idx rest Hlen. by rewrite <- Hlen, take_app_length. }
  split.
  { intros m. rewrite length_app, repeat_length, <- app_assoc. f_equal.
    rewrite <- repeat_app. f_equal. lia. }
  intros t. split; reflexivity.
Qed.

Lemma tensor_repeat_None x sizes :
  tensor_repeat x sizes = None <-> length sizes < ndim x.
Proof.
  unfold tensor_repeat. destruct (Nat.ltb_spec (length sizes) (ndim x)).
  - split; [auto | reflexivity].
  - split; [discriminate | lia].
Qed.

(** X19.  [expand_to_planes(x, shape)] raises exactly when [x] has more
    dimensions than [max(2, len(shape))]: the repeat counts
    [[1, 1, *shape[2:]]] are then fewer than the dimensions of [x]. *)
Theorem expand_to_planes_raises_iff (x : Tensor) (shape : list nat) :
  expand_to_planes x shape = None <-> Nat.max 2 (length shape) < ndim x.
Proof.
  unfold expand_to_planes. rewrite tensor_repeat_None.
  rewrite append_dims_ndim, length_app, length_drop. cbn [length]. lia.
Qed.

(** X20.  On a 2-dimensional [x] of sizes [(B, C)] and a 4-dimensional
    [shape], [expand_to_planes] returns a tensor of sizes
    [(B, C, shape[2], shape[3])] whose element at [(b, c, h, w)] is
    [x[b, c]]: each channel is a constant plane.  It is the tensor the
    forward pass of the secondary model concatenates to the image. *)
Theorem expand_to_planes_planes (e : Denoiser.Tensor2) (s : Shape4) :
  exists r,
    expand_to_planes (of_tensor2 e) (shape_list s) = Some r
    /\ dims r = [Denoiser.rows e; Denoiser.cols e; sH s; sW s]
    /\ dims r = shape_list (shape (Denoiser.expand_to_planes e s))
    /\ forall b c h w, b < Denoiser.rows e -> c < Denoiser.cols e ->
         at_ r [b; c; h; w] = Denoiser.elt2 e b c
         /\ at_ r [b; c; h; w] = elt (Denoiser.expand_to_planes e s) b c h w.
Proof.
  eexists. split; [reflexivity|]. cbn [dims at_].
  assert (Hd : zip_with Nat.mul ([1; 1] ++ drop 2 (shape_list s))
                 (repeat 1 (length ([1; 1] ++ drop 2 (shape_list s))
                            - ndim (append_dims (of_tensor2 e) (length (shape_list s))))
                  ++ dims (append_dims (of_tensor2 e) (length (shape_list s))))
               = [Denoiser.rows e; Denoiser.cols e; sH s; sW s]).
  { cbn. rewrite !Nat.add_0_r, !Nat.mul_1_r. reflexivity. }
  split; [exact Hd|]. split; [exact Hd|].
  intros b c h w Hb Hc. cbn.
  rewrite (Nat.mod_small b) by lia. rewrite (Nat.mod_small c) by lia.
  split; reflexivity.
Qed.

Lemma expand_to_planes_raises_iff_witness :
  expand_to_planes (mkT [2; 3; 4] (fun _ => 0%R)) [5; 6] = None.
Proof.
  apply (expand_to_planes_raises_iff (mkT [2; 3; 4] (fun _ => 0%R)) [5; 6]).
  cbn. lia.
Defined.

End HelpersFacts.
